(** * sunevent: sunrise, sunset, dawn and dusk for a location

    A shallow embedding of [sunevent.go] and the properties of its
    specification that were checked against it.

    The program computes with [float64].  The embedding uses the kernel's
    binary64 numbers ([PrimFloat.float]): every [+], [-], [*], [/] and
    comparison below is the IEEE 754 operation the Go program performs
    (round to nearest, ties to even; no fused multiply-add, as on amd64).
    Decimal constants are rounded to the nearest binary64 value, as the Go
    compiler does. *)

From Stdlib Require Import ZArith Bool String Lia List.
From Stdlib Require Import Floats.
Import ListNotations.

Set Warnings "-inexact-float".
#[local] Open Scope float_scope.

(** ** Numbers *)

(** Go's [v >= max] and [v > max] on float64 (false when either is NaN). *)
Notation "x >=? y" := (PrimFloat.leb y x) (at level 70, no associativity) : float_scope.
Notation "x >? y" := (PrimFloat.ltb y x) (at level 70, no associativity) : float_scope.

(** [float64(n)] for an integer [n]: the nearest binary64 value. *)
Definition of_Z (n : Z) : float := SF2Prim (binary_normalize prec emax n 0 false).

Definition minInt64 : Z := (- 2 ^ 63)%Z.
Definition maxInt64 : Z := (2 ^ 63 - 1)%Z.

(** [int(x)] for a float64 [x]: the fraction is discarded (truncation towards
    zero).  Go leaves the result open when the value does not fit; amd64's
    conversion instruction then gives the least int64, which is what this
    model returns. *)
Definition toInt (x : float) : Z :=
  match Prim2SF x with
  | S754_zero _ => 0%Z
  | S754_finite s m e =>
      let a := (if 0 <=? e then Zpos m * 2 ^ e else Zpos m / 2 ^ (- e))%Z in
      let z := cond_Zopp s a in
      if ((minInt64 <=? z) && (z <=? maxInt64))%Z then z else minInt64
  | _ => minInt64
  end.

(** [math.Floor]: the greatest integer value not above [x]; [±0], [±Inf] and
    NaN are returned as they are (package math's documented contract; the
    operation is exact, so the contract fixes the result). *)
Definition Floor (x : float) : float :=
  match Prim2SF x with
  | S754_finite s m e =>
      if (0 <=? e)%Z then x
      else of_Z (cond_Zopp s (Zpos m) / 2 ^ (- e))%Z
  | _ => x
  end.

(** The transcendental functions of Go's package math that the program calls.
    Their code is not part of the repository: the calculator is
    parametrised by them. *)
Class MathLib : Type := {
  Sin : float -> float;
  Cos : float -> float;
  Tan : float -> float;
  Asin : float -> float;
  Acos : float -> float;
  Atan : float -> float
}.

(** [math.Pi / 180.0] and [180.0 / math.Pi] are constant expressions: Go
    evaluates them exactly and rounds once, when the constant meets a
    float64 operand. *)
Definition Pi_over_180 : float := 0.017453292519943295769236907684886127.
Definition _180_over_Pi : float := 57.295779513082320876798154814105170332.

(** ** Outcomes of a call *)

(** A call returns a value, panics with a message, or is still in one of its
    loops when the fuel is spent. *)
Inductive outcome (A : Type) : Type :=
| Returned (a : A)
| Panicked (msg : string)
| OutOfFuel.
Arguments Returned {A} a.
Arguments Panicked {A} msg.
Arguments OutOfFuel {A}.

Definition bind {A B : Type} (c : outcome A) (k : A -> outcome B) : outcome B :=
  match c with
  | Returned a => k a
  | Panicked msg => Panicked msg
  | OutOfFuel => OutOfFuel
  end.

Definition loop {A : Type} (r : option A) : outcome A :=
  match r with
  | Some a => Returned a
  | None => OutOfFuel
  end.

Declare Scope outcome_scope.
Delimit Scope outcome_scope with outcome.
Notation "x <- c ;; k" := (bind c (fun x => k))
  (at level 61, c at next level, right associativity) : outcome_scope.
Notation "' pat <- c ;; k" := (bind c (fun x => match x with pat => k end))
  (at level 61, pat pattern, c at next level, right associativity) : outcome_scope.

(** ** The clock and timestamps *)

(** [time.FixedZone(name, offset)]: a zone that is always [offset] seconds
    east of UTC. *)
Record Location : Type := FixedZone { zoneName : string; zoneOffset : Z }.

(** A timestamp, by what its methods [Year], [Month], [Day], [Hour],
    [Minute], [Second], [Nanosecond] and [Location] return. *)
Record Time : Type := {
  tYear : Z;
  tMonth : Z;
  tDay : Z;
  tHour : Z;
  tMinute : Z;
  tSecond : Z;
  tNanosecond : Z;
  tLocation : Location
}.

(** Go's [int] and [uint64] arithmetic: sums, differences and products are
    taken modulo [2^64]. *)
Definition wrap64 (z : Z) : Z := ((z + 2 ^ 63) mod 2 ^ 64 - 2 ^ 63)%Z.
Definition u64 (z : Z) : Z := (z mod 2 ^ 64)%Z.

(** [norm(hi, lo, base)] of package time: carries [lo] into [hi] so that
    [0 <= lo < base]; [/] truncates, as Go's does. *)
Definition norm (hi lo base : Z) : Z * Z :=
  let '(hi, lo) :=
    if (lo <? 0)%Z then
      let n := wrap64 (Z.quot (wrap64 (wrap64 (- lo) - 1)) base + 1) in
      (wrap64 (hi - n), wrap64 (lo + wrap64 (n * base)))
    else (hi, lo) in
  if (base <=? lo)%Z then
    let n := Z.quot lo base in
    (wrap64 (hi + n), wrap64 (lo - wrap64 (n * base)))
  else (hi, lo).

(** The first year of the era in which package time counts seconds. *)
Definition absoluteZeroYear : Z := (-292277022399)%Z.

(** The last year that lies in that era as a whole, counted from its first
    year: the era has [2^64] seconds. *)
Definition lastYear : Z := 584554049252%Z.

(** [daysBefore[m]]: the days of a common year before month [m + 1]. *)
Definition daysBefore : list Z :=
  [0; 31; 59; 90; 120; 151; 181; 212; 243; 273; 304; 334; 365]%Z.

Definition isLeap (year : Z) : bool :=
  (Z.rem year 4 =? 0)%Z && (negb (Z.rem year 100 =? 0)%Z || (Z.rem year 400 =? 0)%Z).

(** [daysSinceEpoch(year)]: the days from the start of the era to the start
    of [year]. *)
Definition daysSinceEpoch (year : Z) : Z :=
  let y := u64 (year - absoluteZeroYear) in
  let n := (y / 400)%Z in
  let y := (y - 400 * n)%Z in
  let d := (146097 * n)%Z in
  let n := (y / 100)%Z in
  let y := (y - 100 * n)%Z in
  let d := (d + 36524 * n)%Z in
  let n := (y / 4)%Z in
  let y := (y - 4 * n)%Z in
  let d := (d + 1461 * n)%Z in
  let n := y in
  let d := (d + 365 * n)%Z in
  u64 d.

(** [absDate], first half: the year of day [d] of the era and the day within
    that year, counted from zero. *)
Definition yearOfDays (d : Z) : Z * Z :=
  let n := (d / 146097)%Z in
  let y := (400 * n)%Z in
  let d := (d - 146097 * n)%Z in
  let n := (d / 36524)%Z in
  let n := (n - Z.shiftr n 2)%Z in
  let y := (y + 100 * n)%Z in
  let d := (d - 36524 * n)%Z in
  let n := (d / 1461)%Z in
  let y := (y + 4 * n)%Z in
  let d := (d - 1461 * n)%Z in
  let n := (d / 365)%Z in
  let n := (n - Z.shiftr n 2)%Z in
  let y := (y + n)%Z in
  let d := (d - 365 * n)%Z in
  (wrap64 (wrap64 y + absoluteZeroYear), d).

(** [absDate], second half: month and day of the month of day [yday] of a
    year. *)
Definition monthDay (leap : bool) (yday : Z) : Z * Z :=
  let day := yday in
  if leap && (day =? 31 + 29 - 1)%Z then (2, 29)%Z
  else
    let day := if leap && (31 + 29 - 1 <? day)%Z then (day - 1)%Z else day in
    let month := (day / 31)%Z in
    let end_ := nth (Z.to_nat (month + 1)) daysBefore 0%Z in
    let '(month, begin_) :=
      if (end_ <=? day)%Z then ((month + 1)%Z, end_)
      else (month, nth (Z.to_nat month) daysBefore 0%Z) in
    ((month + 1)%Z, (day - begin_ + 1)%Z).

(** What the methods of a timestamp return for the instant [abs] seconds
    into the era, on the clock of its zone. *)
Definition timeOf (abs nsec : Z) (loc : Location) : Time :=
  let '(year, yday) := yearOfDays (abs / 86400) in
  let '(month, day) := monthDay (isLeap year) yday in
  let sec := (abs mod 86400)%Z in
  {| tYear := year; tMonth := month; tDay := day;
     tHour := (sec / 3600)%Z; tMinute := (sec mod 3600 / 60)%Z; tSecond := (sec mod 60)%Z;
     tNanosecond := nsec; tLocation := loc |}.

(** [time.Date]: values outside their usual ranges are carried over, each
    field into the next larger one, in machine integers.  The offset of a
    fixed zone is taken off when the instant is stored and put back when its
    fields are read, so it does not show in them. *)
Definition Date (year month day hour min sec nsec : Z) (loc : Location) : Time :=
  let m := wrap64 (month - 1) in
  let '(year, m) := norm year m 12 in
  let month := wrap64 (m + 1) in
  let '(sec, nsec) := norm sec nsec 1000000000 in
  let '(min, sec) := norm min sec 60 in
  let '(hour, min) := norm hour min 60 in
  let '(day, hour) := norm day hour 24 in
  let d := daysSinceEpoch year in
  let d := (d + nth (Z.to_nat (month - 1)) daysBefore 0)%Z in
  let d := if isLeap year && (3 <=? month)%Z then (d + 1)%Z else d in
  let d := (d + u64 (day - 1))%Z in
  let abs := (d * 86400)%Z in
  let abs := u64 (abs + u64 (hour * 3600 + min * 60 + sec)) in
  timeOf abs nsec loc.

(** The days of a month. *)
Definition daysIn (leap : bool) (month : Z) : Z :=
  (nth (Z.to_nat month) daysBefore 0 - nth (Z.to_nat (month - 1)) daysBefore 0
   + (if leap && (month =? 2) then 1 else 0))%Z.

(** The day of the year, counted from zero. *)
Definition dayIndex (leap : bool) (month day : Z) : Z :=
  (nth (Z.to_nat (month - 1)) daysBefore 0
   + (if leap && (3 <=? month) then 1 else 0) + (day - 1))%Z.

(** A date of the calendar within the era. *)
Definition valid_date (year month day : Z) : bool :=
  (absoluteZeroYear <=? year)%Z && (year <=? absoluteZeroYear + lastYear)%Z
  && (1 <=? month)%Z && (month <=? 12)%Z
  && (1 <=? day)%Z && (day <=? daysIn (isLeap year) month)%Z.

(** What the calculator reads from [time.Now()]: the calendar date, the day
    of the year, and the name and offset of the zone in effect.  A reading
    of the clock is a date of the calendar, and its day of the year is that
    of the date. *)
Record Now : Type := {
  Year : Z;
  Month : Z;
  Day : Z;
  YearDay : Z;
  Zone : string * Z;
  clock_valid :
    valid_date Year Month Day
    && (YearDay =? dayIndex (isLeap Year) Month Day + 1)%Z = true
}.

(** ** normalizeRange *)

(** [for v < 0 { v += max }] *)
Fixpoint addLoop (fuel : nat) (v max : float) : option float :=
  match fuel with
  | O => None
  | S fuel' => if v <? 0 then addLoop fuel' (v + max) max else Some v
  end.

(** [for v >= max { v -= max }] *)
Fixpoint subLoop (fuel : nat) (v max : float) : option float :=
  match fuel with
  | O => None
  | S fuel' => if v >=? max then subLoop fuel' (v - max) max else Some v
  end.

(** [fuel] bounds the number of tests of each loop condition; [None] means
    that a loop was still running when it was spent. *)
Definition normalizeRange (fuel : nat) (v max : float) : option float :=
  match addLoop fuel v max with
  | Some v' => subLoop fuel v' max
  | None => None
  end.

(** The call returns [r]. *)
Definition normalizeRange_returns (v max r : float) : Prop :=
  exists fuel, normalizeRange fuel v max = Some r.

(** The call never returns. *)
Definition normalizeRange_diverges (v max : float) : Prop :=
  forall fuel, normalizeRange fuel v max = None.

(** ** The calculator *)

Section Calculator.
Context {math : MathLib}.
#[local] Open Scope outcome_scope.

Definition degreeToRadian (x : float) : float := Pi_over_180 * x.
Definition radianToDegree (x : float) : float := _180_over_Pi * x.
Definition degreeSin (x : float) : float := Sin (degreeToRadian x).
Definition degreeAsin (x : float) : float := radianToDegree (Asin x).
Definition degreeAtan (x : float) : float := radianToDegree (Atan x).
Definition degreeTan (x : float) : float := Tan (degreeToRadian x).
Definition degreeCos (x : float) : float := Cos (degreeToRadian x).
Definition degreeAcos (x : float) : float := radianToDegree (Acos x).

(** The local variables of [sunRiseSet] that are live after step 7a. *)
Record position : Type := {
  sunset : bool;
  loc : Location;
  localOffset : float;
  lngHour : float;
  t : float;
  M : float;
  L : float;
  RA : float;
  sinDec : float;
  cosDec : float;
  cosH : float
}.

(** [sunRiseSet], from its first statement to the computation of [cosH]
    (steps 1 to 7a). *)
Definition sunPosition (fuel : nat) (today : Now)
    (sunrise : bool) (latitude longitude zenith : float) : outcome position :=
  let sunset := negb (Bool.eqb sunrise true) in
  let '(name, offset) := Zone today in
  let loc := FixedZone name offset in
  let localOffset := of_Z offset / 3600.0 in
  let N := of_Z (YearDay today) in
  let lngHour := longitude / 15 in
  let t := N + ((6 - lngHour) / 24) in
  let t := if sunset then N + ((18 - lngHour) / 24) else t in
  let M := (0.9856 * t) - 3.289 in
  let L := M + (1.916 * degreeSin M) + (0.020 * degreeSin (2 * M)) + 282.634 in
  L <- loop (normalizeRange fuel L 360) ;;
  let RA := degreeAtan (0.91764 * degreeTan L) in
  RA <- loop (normalizeRange fuel RA 360) ;;
  let Lquadrant := Floor (L / 90.0) * 90.0 in
  let RAquadrant := Floor (RA / 90.0) * 90.0 in
  let RA := RA + (Lquadrant - RAquadrant) in
  let RA := RA / 15.0 in
  let sinDec := 0.39782 * degreeSin L in
  let cosDec := degreeCos (degreeAsin sinDec) in
  let cosH := (degreeCos zenith - (sinDec * degreeSin latitude))
              / (cosDec * degreeCos latitude) in
  Returned {| sunset := sunset; loc := loc; localOffset := localOffset;
              lngHour := lngHour; t := t; M := M; L := L; RA := RA;
              sinDec := sinDec; cosDec := cosDec; cosH := cosH |}.

(** The test of [cosH] and steps 7b and 8: the hour angle [H], in hours,
    and the local mean time [T]. *)
Definition localMeanTime (p : position) : outcome (float * float) :=
  if (cosH p >? 1.0) || (cosH p <? -1.0) then Panicked "no answer"
  else
    let H := 360 - degreeAcos (cosH p) in
    let H := if sunset p then degreeAcos (cosH p) else H in
    let H := H / 15.0 in
    let T := H + RA p - (0.06571 * t p) - 6.622 in
    Returned (H, T).

(** Steps 9 and 10 and the construction of the result. *)
Definition localTimestamp (fuel : nat) (today : Now) (p : position) (T : float)
    : outcome Time :=
  UT <- loop (normalizeRange fuel (T - lngHour p) 24.0) ;;
  localT <- loop (normalizeRange fuel (UT + localOffset p) 24.0) ;;
  let hour := Floor localT in
  let minute := Floor ((localT - hour) * 60.0) in
  let second := Floor (((localT - hour) * 60.0 - minute) * 60.0) in
  Returned (Date (Year today) (Month today) (Day today)
                 (toInt hour) (toInt minute) (toInt second) 0 (loc p)).

(** [sunRiseSet(sunrise, latitude, longitude, zenith)]; [today] is the value
    its call of [time.Now()] returns. *)
Definition sunRiseSet (fuel : nat) (today : Now)
    (sunrise : bool) (latitude longitude zenith : float) : outcome Time :=
  p <- sunPosition fuel today sunrise latitude longitude zenith ;;
  '(_, T) <- localMeanTime p ;;
  localTimestamp fuel today p T.

Definition SunRise (fuel : nat) (today : Now) (latitude longitude : float) : outcome Time :=
  sunRiseSet fuel today true latitude longitude 90.0.

Definition SunSet (fuel : nat) (today : Now) (latitude longitude : float) : outcome Time :=
  sunRiseSet fuel today false latitude longitude 90.0.

Definition Dawn (fuel : nat) (today : Now) (latitude longitude : float) : outcome Time :=
  sunRiseSet fuel today true latitude longitude 83.0.

Definition Dusk (fuel : nat) (today : Now) (latitude longitude : float) : outcome Time :=
  sunRiseSet fuel today false latitude longitude 83.0.

End Calculator.

(** ** A concrete math library for closed examples

    An instance of [MathLib] that computes: Taylor sums after argument
    reduction, accurate to a few units in the last place on the arguments
    the calculator produces.  It stands in for Go's package math wherever a
    statement below is evaluated on concrete inputs; the general theorems
    hold for every instance. *)
Module Approx.

Definition halfPi : float := 1.5707963267948966.
Definition twoPi : float := 6.283185307179586.

(** [acc + term * (-x2)/((k+1)(k+2)) + ...], [n] further terms. *)
Fixpoint alternating (n : nat) (term acc x2 k : float) : float :=
  match n with
  | O => acc
  | S n' =>
      let term' := - term * x2 / ((k + 1) * (k + 2)) in
      alternating n' term' (acc + term') x2 (k + 2)
  end.

(** The argument brought into [-pi, pi]. *)
Definition reduce (x : float) : float := x - twoPi * Floor (x / twoPi + 0.5).

Definition sin (x : float) : float :=
  let r := reduce x in alternating 16 r r (r * r) 1.

Definition cos (x : float) : float :=
  let r := reduce x in alternating 16 1 1 (r * r) 0.

Definition tan (x : float) : float := sin x / cos x.

(** [y - y^3/3 + y^5/5 - ...], [n] further terms. *)
Fixpoint gregory (n : nat) (power acc y2 k : float) : float :=
  match n with
  | O => acc
  | S n' =>
      let power' := - power * y2 in
      gregory n' power' (acc + power' / (k + 2)) y2 (k + 2)
  end.

(** [tan (a/2)] from [tan a]. *)
Definition halve (y : float) : float := y / (1 + sqrt (1 + y * y)).

(** The arc tangent on [0, 1]. *)
Definition atanUnit (x : float) : float :=
  let y := halve (halve x) in 4 * gregory 14 y y (y * y) 1.

Definition atanPos (x : float) : float :=
  if x >? 1 then halfPi - atanUnit (1 / x) else atanUnit x.

Definition atan (x : float) : float :=
  if x <? 0 then - atanPos (- x) else atanPos x.

Definition asin (x : float) : float := atan (x / sqrt (1 - x * x)).

Definition acos (x : float) : float := halfPi - asin x.

#[export] Instance math : MathLib :=
  {| Sin := sin; Cos := cos; Tan := tan; Asin := asin; Acos := acos; Atan := atan |}.

End Approx.

(** ** The formulas of the specification

    The nine-step procedure as the specification words it, for comparison
    with the code.  Nothing here refers to the code's own helpers: an angle
    in degrees is turned into radians by the factor [pi / 180], and back by
    [180 / pi]. *)
Module Spec.
Section Formulas.
Context {math : MathLib}.

Definition pi : float := 3.14159265358979323846264338327950288419716939937510582097494459.

Definition radians (d : float) : float := pi / 180 * d.
Definition degrees (r : float) : float := 180 / pi * r.

Definition sin (x : float) : float := Sin (radians x).
Definition cos (x : float) : float := Cos (radians x).
Definition tan (x : float) : float := Tan (radians x).
Definition asin (x : float) : float := degrees (Asin x).
Definition acos (x : float) : float := degrees (Acos x).
Definition atan (x : float) : float := degrees (Atan x).

Definition lngHour (longitude : float) : float := longitude / 15.

Definition t (rising : bool) (N longitude : float) : float :=
  if rising then N + ((6 - lngHour longitude) / 24)
  else N + ((18 - lngHour longitude) / 24).

Definition M (t : float) : float := 0.9856 * t - 3.289.

Definition L_formula (M : float) : float :=
  M + 1.916 * sin M + 0.020 * sin (2 * M) + 282.634.

Definition RA_formula (L : float) : float := atan (0.91764 * tan L).

Definition RA_hours (L RA : float) : float :=
  (RA + (Floor (L / 90) * 90 - Floor (RA / 90) * 90)) / 15.

Definition sinDec (L : float) : float := 0.39782 * sin L.

Definition cosH (zenith latitude sinDec : float) : float :=
  (cos zenith - sinDec * sin latitude) / (cos (asin sinDec) * cos latitude).

Definition H (rising : bool) (cosH : float) : float :=
  if rising then (360 - acos cosH) / 15 else acos cosH / 15.

Definition T (H RA t : float) : float := H + RA - 0.06571 * t - 6.622.

Definition hour (localT : float) : float := Floor localT.
Definition minute (localT : float) : float := Floor ((localT - hour localT) * 60).
Definition second (localT : float) : float :=
  Floor (((localT - hour localT) * 60 - minute localT) * 60).

End Formulas.
End Spec.

(** The clock readings used in closed examples: 21 March and 21 June 2026,
    on a clock set to UTC. *)
Definition equinox : Now :=
  {| Year := 2026; Month := 3; Day := 21; YearDay := 80; Zone := ("UTC"%string, 0%Z);
     clock_valid := eq_refl |}.

Definition solstice : Now :=
  {| Year := 2026; Month := 6; Day := 21; YearDay := 172; Zone := ("UTC"%string, 0%Z);
     clock_valid := eq_refl |}.

(** ** Classes of binary64 values *)

(** A value with sign [s]: a zero, a finite number or an infinity. *)
Definition signed (s : bool) (x : spec_float) : Prop :=
  match x with
  | S754_zero s' | S754_infinity s' | S754_finite s' _ _ => s' = s
  | S754_nan => False
  end.

(** Not a NaN. *)
Definition not_nan (x : float) : Prop := is_nan x = false.

(** A positive number that is not an infinity. *)
Definition positive_finite (x : float) : Prop :=
  (0 <? x) = true /\ is_finite x = true.

(** ** Numbers on a common scale *)

(** The canonical binary64 form of [m * 2^q] with sign [s], for a mantissa
    [m] below [2^53]: the mantissa is shifted left until it has 53 digits or
    the exponent is the least one. *)
Definition canonical (s : bool) (m : positive) (q : Z) : spec_float :=
  let e := fexp prec emax (Zpos (digits2_pos m) + q)%Z in
  S754_finite s (Z.to_pos (Zpos m * 2 ^ (q - e))) e.

Definition fixed_sf (c q : Z) : spec_float :=
  match c with
  | Z0 => S754_zero false
  | Zpos m => canonical false m q
  | Zneg m => canonical true m q
  end.

(** The float64 number [c * 2^q]. *)
Definition fixed (c q : Z) : float := SF2Prim (fixed_sf c q).

(** [c * 2^q] is a float64 number as it stands: the mantissa has at most 53
    digits and the exponent is in range. *)
Definition fits (c q : Z) : Prop := (Z.abs c < 2 ^ 53 /\ -1074 <= q <= 971)%Z.

(** ** Rounding in integer terms *)

(** [M / 2^k] rounded to nearest, ties to even. *)
Definition round_shift (M k : Z) : Z :=
  let q := (M / 2 ^ k)%Z in
  match (2 * (M mod 2 ^ k) ?= 2 ^ k)%Z with
  | Lt => q
  | Eq => if Z.even q then q else (q + 1)%Z
  | Gt => (q + 1)%Z
  end.

(** The mantissa and exponent to which [M * 2^E] is rounded. *)
Definition rnd (M E : Z) : Z * Z :=
  let t := fexp prec emax (Zdigits2 M + E) in
  let k := (t - E)%Z in
  if (k <=? 0)%Z then (M, E)
  else
    let m2 := round_shift M k in
    if (m2 =? 2 ^ 53)%Z then ((2 ^ 52)%Z, (t + 1)%Z) else (m2, t).

(** The value with sign [s], mantissa [m] and exponent [e]. *)
Definition pack (s : bool) (me : Z * Z) : spec_float :=
  match fst me with
  | Z0 => S754_zero s
  | Zpos p => if (snd me <=? 971)%Z then S754_finite s p (snd me) else S754_infinity s
  | Zneg _ => S754_nan
  end.

(** ** Years counted from the first year of the era *)

(** [isLeap] of the year [Y] years after [absoluteZeroYear]. *)
Definition leapIndex (Y : Z) : bool :=
  (Y mod 4 =? 3)%Z && (negb (Y mod 100 =? 99)%Z || (Y mod 400 =? 399)%Z).

Definition yearLength (Y : Z) : Z := if leapIndex Y then 366%Z else 365%Z.

(** The integers [lo], ..., [lo + n - 1]. *)
Definition range (lo n : nat) : list Z := map Z.of_nat (seq lo n).

(** [monthDay] gives back the month and day that [dayIndex] counted. *)
Definition monthDay_inverts (leap : bool) (month day : Z) : bool :=
  negb (day <=? daysIn leap month)%Z
  || (let yd := dayIndex leap month day in
      let '(m, d) := monthDay leap yd in
      (m =? month)%Z && (d =? day)%Z && (0 <=? yd)%Z
      && (yd <? (if leap then 366 else 365))%Z).

(** ** Finite numbers as integers *)

(** The integer [x * 2^1074] for a finite [x]: every finite binary64 number
    is a multiple of [2^-1074]. *)
Definition SFvalue (x : spec_float) : Z :=
  match x with
  | S754_finite s m e => cond_Zopp s (Zpos m * 2 ^ (e + 1074))%Z
  | _ => 0%Z
  end.

Definition value (x : float) : Z := SFvalue (Prim2SF x).

(** [|x| * 2^1074]. *)
Definition magnitude (x : float) : Z := Z.abs (value x).

(** A zero or a finite number. *)
Definition SFfinite (x : spec_float) : Prop :=
  match x with
  | S754_zero _ | S754_finite _ _ _ => True
  | _ => False
  end.

(** The largest finite number, as a multiple of [2^-1074]. *)
Definition maxValue : Z := ((2 ^ 53 - 1) * 2 ^ 2045)%Z.

(** * Properties *)

(** ** Facts about binary64 arithmetic *)

Section SpecFloatFacts.
#[local] Open Scope Z_scope.

Lemma SFcompare_antisym :
  forall x y c, SFcompare x y = Some c -> SFcompare y x = Some (CompOpp c).
Proof.
  intros x y c.
  destruct x as [sx|sx| |sx mx ex], y as [sy|sy| |sy my ey]; simpl;
    try discriminate;
    try (destruct sx; intro E; inversion E; reflexivity);
    try (destruct sy; intro E; inversion E; reflexivity);
    try (destruct sx, sy; intro E; inversion E; reflexivity).
  destruct sx, sy; intro E; inversion E; subst c; clear E; try reflexivity;
    rewrite (Z.compare_antisym ex ey);
    destruct (ex ?= ey) eqn:Ee; simpl; try reflexivity;
    change (PosDef.Pos.compare_cont Eq my mx) with (Pos.compare my mx);
    change (PosDef.Pos.compare_cont Eq mx my) with (Pos.compare mx my);
    rewrite (Pos.compare_antisym mx my);
    destruct (Pos.compare mx my); reflexivity.
Qed.

(** The mantissa stays non-negative under right shifts and rounding. *)
Lemma shr_1_nonneg : forall r, 0 <= shr_m r -> 0 <= shr_m (shr_1 r).
Proof.
  intros [m r s]; simpl. destruct m as [|[p|p|]|p]; simpl; lia.
Qed.

Lemma iter_pos_shr_1_nonneg :
  forall p r, 0 <= shr_m r -> 0 <= shr_m (iter_pos shr_1 p r).
Proof.
  induction p as [p IH|p IH|]; intros r Hr; simpl.
  - apply IH, IH, shr_1_nonneg, Hr.
  - apply IH, IH, Hr.
  - apply shr_1_nonneg, Hr.
Qed.

Lemma shr_fexp_nonneg :
  forall m e l, 0 <= m -> 0 <= shr_m (fst (shr_fexp prec emax m e l)).
Proof.
  intros m e l Hm. unfold shr_fexp, shr.
  assert (H0 : 0 <= shr_m (shr_record_of_loc m l))
    by (destruct l as [|[]]; simpl; exact Hm).
  destruct (fexp prec emax (Zdigits2 m + e) - e); simpl; auto.
  apply iter_pos_shr_1_nonneg, H0.
Qed.

Lemma round_nearest_even_nonneg :
  forall m l, 0 <= m -> 0 <= round_nearest_even m l.
Proof.
  intros m l Hm. destruct l as [|[]]; simpl; try lia.
  destruct (Z.even m); lia.
Qed.

Lemma binary_round_aux_signed :
  forall s m e l, 0 <= m -> signed s (binary_round_aux prec emax s m e l).
Proof.
  intros s m e l Hm. unfold binary_round_aux.
  pose proof (shr_fexp_nonneg m e l Hm) as H1.
  destruct (shr_fexp prec emax m e l) as [r1 e1]; simpl in H1.
  pose proof (shr_fexp_nonneg _ e1 loc_Exact
                (round_nearest_even_nonneg _ (loc_of_shr_record r1) H1)) as H2.
  destruct (shr_fexp prec emax _ e1 loc_Exact) as [r2 e2]; simpl in H2.
  destruct (shr_m r2) as [|p|p]; simpl.
  - reflexivity.
  - destruct (_ <=? _); simpl; reflexivity.
  - lia.
Qed.

Lemma binary_round_signed :
  forall s m e, signed s (binary_round prec emax s m e).
Proof.
  intros s m e. unfold binary_round.
  destruct (shl_align m e _) as [mz ez].
  apply binary_round_aux_signed. lia.
Qed.

Lemma binary_normalize_signed :
  forall m e,
    match m with
    | 0 => binary_normalize prec emax m e false = S754_zero false
    | Zpos _ => signed false (binary_normalize prec emax m e false)
    | Zneg _ => signed true (binary_normalize prec emax m e false)
    end.
Proof.
  intros [|p|p] e; simpl; [reflexivity| |]; apply binary_round_signed.
Qed.

End SpecFloatFacts.

Section Canonical.
#[local] Open Scope Z_scope.

Lemma iter_xO_value : forall d m, Zpos (Pos.iter xO m d) = Zpos m * 2 ^ Zpos d.
Proof.
  intros d m. induction d as [|d IH] using Pos.peano_ind.
  - simpl. lia.
  - rewrite Pos.iter_succ, Pos2Z.inj_xO, IH, Pos2Z.inj_succ, Z.pow_succ_r by lia. lia.
Qed.

Lemma shl_align_value :
  forall m e e', e' <= e -> Zpos (fst (shl_align m e e')) = Zpos m * 2 ^ (e - e').
Proof.
  intros m e e' He. unfold shl_align.
  destruct (e' - e) as [|d|d] eqn:Ed; simpl.
  - replace (e - e') with 0 by lia. rewrite Z.pow_0_r. lia.
  - lia.
  - rewrite iter_xO_value. replace (e - e') with (Zpos d) by (pose proof (Pos2Z.opp_pos d); lia). reflexivity.
Qed.

Lemma shl_align_exponent :
  forall m e e', e' <= e -> snd (shl_align m e e') = e' .
Proof.
  intros m e e' He. unfold shl_align.
  destruct (e' - e) as [|d|d] eqn:Ed; simpl; lia.
Qed.

Lemma digits2_pos_bounds :
  forall m, 2 ^ (Zpos (digits2_pos m) - 1) <= Zpos m < 2 ^ Zpos (digits2_pos m).
Proof.
  induction m as [m IH|m IH|]; simpl digits2_pos.
  - rewrite Pos2Z.inj_succ, (Pos2Z.inj_xI m).
    replace (Z.succ (Zpos (digits2_pos m)) - 1) with (Z.succ (Zpos (digits2_pos m) - 1)) by lia.
    rewrite !Z.pow_succ_r by lia. lia.
  - rewrite Pos2Z.inj_succ, (Pos2Z.inj_xO m).
    replace (Z.succ (Zpos (digits2_pos m)) - 1) with (Z.succ (Zpos (digits2_pos m) - 1)) by lia.
    rewrite !Z.pow_succ_r by lia. lia.
  - split; [discriminate | reflexivity].
Qed.

(** What validity says of a finite binary64 number [m * 2^e]: at most 53
    digits, exactly 53 unless the exponent is the least one. *)
Lemma bounded_inv :
  forall m e, bounded prec emax m e = true ->
    -1074 <= e <= 971
    /\ Zpos m < 2 ^ 53
    /\ (-1074 < e -> 2 ^ 52 <= Zpos m).
Proof.
  intros m e Hb. unfold bounded, canonical_mantissa, fexp, SpecFloat.emin in Hb.
  apply andb_true_iff in Hb. destruct Hb as [Hc He].
  apply Z.eqb_eq in Hc. apply Z.leb_le in He.
  change emax with 1024 in *. change prec with 53 in *.
  pose proof (digits2_pos_bounds m) as [Hlo Hhi].
  assert (Hd : Zpos (digits2_pos m) <= 53) by lia.
  repeat split; try lia.
  - apply Z.lt_le_trans with (1 := Hhi). apply Z.pow_le_mono_r; lia.
  - intro Hn. replace (Zpos (digits2_pos m)) with 53 in Hlo by lia. exact Hlo.
Qed.

(** On valid numbers, the comparison of exponents then mantissas agrees
    with the comparison of the mantissas brought to the lesser exponent. *)
Lemma compare_aligned :
  forall mx ex my ey,
    bounded prec emax mx ex = true -> bounded prec emax my ey = true ->
    match ex ?= ey with
    | Lt => Lt
    | Gt => Gt
    | Eq => Pos.compare_cont Eq mx my
    end
    = (Zpos mx * 2 ^ (ex - Z.min ex ey) ?= Zpos my * 2 ^ (ey - Z.min ex ey)).
Proof.
  intros mx ex my ey Hx Hy.
  apply bounded_inv in Hx. apply bounded_inv in Hy.
  destruct Hx as (Hex & Hmx & Hnx), Hy as (Hey & Hmy & Hny).
  destruct (ex ?= ey) eqn:Ec.
  - apply Z.compare_eq_iff in Ec. subst ey.
    rewrite Z.min_id, Z.sub_diag, Z.pow_0_r, !Z.mul_1_r. reflexivity.
  - apply -> Z.compare_lt_iff in Ec.
    rewrite (Z.min_l ex ey), Z.sub_diag, Z.pow_0_r, Z.mul_1_r by lia.
    symmetry. apply Z.compare_lt_iff.
    assert (2 ^ 1 <= 2 ^ (ey - ex)) by (apply Z.pow_le_mono_r; lia).
    specialize (Hny ltac:(lia)). nia.
  - apply -> Z.compare_gt_iff in Ec.
    rewrite (Z.min_r ex ey), Z.sub_diag, Z.pow_0_r, Z.mul_1_r by lia.
    symmetry. apply Z.compare_gt_iff.
    assert (2 ^ 1 <= 2 ^ (ex - ey)) by (apply Z.pow_le_mono_r; lia).
    specialize (Hnx ltac:(lia)). nia.
Qed.

End Canonical.

Section Binary64.

Lemma SFcompare_refl : forall x, x <> S754_nan -> SFcompare x x = Some Eq.
Proof.
  intros [s|s| |s m e] Hx; simpl; try reflexivity; try contradiction;
    destruct s; try reflexivity;
    rewrite Z.compare_refl;
    change (PosDef.Pos.compare_cont Eq m m) with (Pos.compare m m);
    rewrite Pos.compare_refl; reflexivity.
Qed.

Lemma not_nan_spec : forall x, not_nan x <-> Prim2SF x <> S754_nan.
Proof.
  intro x. unfold not_nan, is_nan. rewrite eqb_spec. unfold SFeqb. split.
  - intros H E. rewrite E in H. discriminate.
  - intro H. rewrite SFcompare_refl by exact H. reflexivity.
Qed.

Lemma positive_finite_spec :
  forall x, positive_finite x ->
    exists m e, Prim2SF x = S754_finite false m e /\ bounded prec emax m e = true.
Proof.
  intros x [Hpos Hfin].
  pose proof (Prim2SF_valid x) as Hv.
  unfold is_finite, is_nan, is_infinity in Hfin.
  rewrite ltb_spec in Hpos. rewrite !eqb_spec, abs_spec in Hfin.
  change (Prim2SF 0) with (S754_zero false) in Hpos.
  change (Prim2SF infinity) with (S754_infinity false) in Hfin.
  destruct (Prim2SF x) as [s|s| |s m e]; try discriminate.
  - destruct s; discriminate.
  - destruct s; try discriminate. exists m, e. split; [reflexivity | exact Hv].
Qed.

Lemma leb_zero_spec :
  forall x, (0 <=? x) = true <-> signed false (Prim2SF x) \/ exists s, Prim2SF x = S754_zero s.
Proof.
  intro x. rewrite leb_spec. change (Prim2SF 0) with (S754_zero false).
  destruct (Prim2SF x) as [s|s| |s m e]; simpl; split; intro H.
  - right. exists s. reflexivity.
  - reflexivity.
  - destruct s; [discriminate | left; reflexivity].
  - destruct H as [H|[s' H]]; [subst s; reflexivity | discriminate].
  - discriminate.
  - destruct H as [[]|[s' H]]; discriminate.
  - destruct s; [discriminate | left; reflexivity].
  - destruct H as [H|[s' H]]; [subst s; reflexivity | discriminate].
Qed.

Lemma leb_zero_not_nan : forall x, (0 <=? x) = true -> not_nan x.
Proof.
  intros x H. apply not_nan_spec. apply leb_zero_spec in H.
  destruct H as [H|[s H]]; intro E; rewrite E in H; [exact H | discriminate].
Qed.

(** [v < 0] fails on a number: it is zero or positive. *)
Lemma ltb_zero_false :
  forall x, not_nan x -> (x <? 0) = false -> (0 <=? x) = true.
Proof.
  intros x Hn. apply not_nan_spec in Hn.
  rewrite ltb_spec, leb_spec. change (Prim2SF 0) with (S754_zero false).
  destruct (Prim2SF x) as [s|s| |s m e]; simpl; try reflexivity;
    try contradiction; destruct s; (discriminate || reflexivity).
Qed.

Lemma leb_zero_ltb :
  forall x, (0 <=? x) = true -> (x <? 0) = false.
Proof.
  intro x. rewrite ltb_spec, leb_spec. change (Prim2SF 0) with (S754_zero false).
  destruct (Prim2SF x) as [s|s| |s m e]; simpl; try reflexivity;
    try discriminate; destruct s; (discriminate || reflexivity).
Qed.

(** The order is total on numbers. *)
Lemma geb_false_ltb :
  forall x y, not_nan x -> not_nan y -> (x >=? y) = false -> (x <? y) = true.
Proof.
  intros x y Hx Hy. apply not_nan_spec in Hx. apply not_nan_spec in Hy.
  rewrite ltb_spec, leb_spec. unfold SFleb, SFltb.
  destruct (SFcompare (Prim2SF y) (Prim2SF x)) as [c|] eqn:Ec.
  - rewrite (SFcompare_antisym _ _ _ Ec). destruct c; simpl; congruence.
  - destruct (Prim2SF y) as [s|s| |s m e], (Prim2SF x) as [s'|s'| |s' m' e'];
      simpl in Ec; try discriminate; contradiction.
Qed.

Lemma ltb_geb_false :
  forall x y, (x <? y) = true -> (x >=? y) = false.
Proof.
  intros x y. rewrite ltb_spec, leb_spec. unfold SFleb, SFltb.
  destruct (SFcompare (Prim2SF x) (Prim2SF y)) as [c|] eqn:Ec; [|discriminate].
  rewrite (SFcompare_antisym _ _ _ Ec). destruct c; simpl; congruence.
Qed.

(** Adding a finite number to a number gives a number. *)
Lemma add_not_nan :
  forall v max, not_nan v -> is_finite max = true -> not_nan (v + max).
Proof.
  intros v max Hv Hfin. apply not_nan_spec in Hv. apply not_nan_spec.
  rewrite add_spec.
  unfold is_finite, is_nan, is_infinity in Hfin.
  rewrite !eqb_spec, abs_spec in Hfin.
  change (Prim2SF infinity) with (S754_infinity false) in Hfin.
  destruct (Prim2SF v) as [s|s| |s m e], (Prim2SF max) as [s'|s'| |s' m' e'];
    try contradiction; try discriminate;
    try (destruct s'; discriminate).
  - destruct s, s'; discriminate.
  - unfold SF64add, SFadd.
    match goal with |- binary_normalize _ _ ?z ?ez _ <> _ =>
      pose proof (binary_normalize_signed z ez) as Hs; destruct z end.
    + rewrite Hs. discriminate.
    + intro E. rewrite E in Hs. exact Hs.
    + intro E. rewrite E in Hs. exact Hs.
Qed.

(** Taking a positive finite number from one at least as large leaves zero
    or a positive number. *)
Lemma sub_nonneg :
  forall v max, positive_finite max -> (v >=? max) = true -> (0 <=? v - max) = true.
Proof.
  intros v max Hmax Hge.
  destruct (positive_finite_spec max Hmax) as (mm & em & Em & Hbm).
  pose proof (Prim2SF_valid v) as Hv.
  apply leb_zero_spec. rewrite sub_spec.
  rewrite leb_spec, Em in Hge. rewrite Em.
  destruct (Prim2SF v) as [s|s| |s m e]; simpl in Hge; try discriminate.
  - destruct s; try discriminate. left. reflexivity.
  - destruct s; try discriminate.
    unfold SF64sub, SFsub. simpl in Hv.
    unfold SFleb in Hge. simpl in Hge.
    rewrite (compare_aligned mm em m e Hbm Hv), Z.min_comm in Hge.
    simpl cond_Zopp. change IntDef.Z.min with Z.min.
    rewrite (shl_align_value m e (Z.min e em)) by apply Z.le_min_l.
    rewrite (shl_align_value mm em (Z.min e em)) by apply Z.le_min_r.
    match goal with |- context [binary_normalize _ _ ?z ?ez _] =>
      pose proof (binary_normalize_signed z ez) as Hs;
      assert (Hz : (0 <= z)%Z) by
        (destruct (Z.compare_spec (Z.pos mm * 2 ^ (em - Z.min e em))
                     (Z.pos m * 2 ^ (e - Z.min e em))); try discriminate; lia);
      destruct z
    end.
    + right. exists false. exact Hs.
    + left. exact Hs.
    + lia.
Qed.

End Binary64.

(** ** Exact arithmetic on a common scale *)

Section Exact.
#[local] Open Scope Z_scope.

Lemma digits2_pos_unique :
  forall m d, 2 ^ (d - 1) <= Zpos m < 2 ^ d -> Zpos (digits2_pos m) = d.
Proof.
  intros m d [Hlo Hhi].
  destruct (digits2_pos_bounds m) as [Hlo' Hhi'].
  assert (Hd : 0 < d).
  { destruct (Z_lt_le_dec 0 d) as [H|H]; [exact H|].
    exfalso. destruct (Z.eq_dec d 0) as [E|E].
    - subst d. change (2 ^ 0) with 1 in Hhi. lia.
    - rewrite Z.pow_neg_r in Hhi by lia. lia. }
  destruct (Z.lt_trichotomy (Zpos (digits2_pos m)) d) as [H|[H|H]]; [|exact H|].
  - assert (2 ^ Zpos (digits2_pos m) <= 2 ^ (d - 1)) by (apply Z.pow_le_mono_r; lia). lia.
  - assert (2 ^ d <= 2 ^ (Zpos (digits2_pos m) - 1)) by (apply Z.pow_le_mono_r; lia). lia.
Qed.

Lemma digits2_pos_shift :
  forall M m k, 0 <= k -> Zpos M = Zpos m * 2 ^ k ->
    Zpos (digits2_pos M) = Zpos (digits2_pos m) + k.
Proof.
  intros M m k Hk HM. apply digits2_pos_unique.
  destruct (digits2_pos_bounds m) as [Hlo Hhi].
  rewrite HM.
  replace (Zpos (digits2_pos m) + k - 1) with ((Zpos (digits2_pos m) - 1) + k) by lia.
  rewrite !Z.pow_add_r by lia.
  assert (0 < 2 ^ k) by (apply Z.pow_pos_nonneg; lia).
  split; nia.
Qed.

Lemma iter_pos_eq :
  forall (A : Type) (f : A -> A) p x, iter_pos f p x = Pos.iter f x p.
Proof.
  intros A f. induction p as [p IH|p IH|]; intro x; simpl.
  - rewrite !IH. rewrite <- !Pos.iter_swap. reflexivity.
  - rewrite !IH. reflexivity.
  - reflexivity.
Qed.

(** Shifting out zeros is exact. *)
Lemma shr_exact :
  forall k P M, Zpos M = Zpos P * 2 ^ Zpos k ->
    iter_pos shr_1 k {| shr_m := Zpos M; shr_r := false; shr_s := false |}
    = {| shr_m := Zpos P; shr_r := false; shr_s := false |}.
Proof.
  intros k P M HM. rewrite iter_pos_eq. revert M HM.
  induction k as [|k IH] using Pos.peano_ind; intros M HM.
  - simpl. replace M with (P~0)%positive by lia. reflexivity.
  - rewrite Pos.iter_succ_r.
    rewrite Pos2Z.inj_succ, Z.pow_succ_r in HM by lia.
    destruct M as [M|M|]; try lia.
    simpl. apply IH. lia.
Qed.

End Exact.

Section Exact2.
#[local] Open Scope Z_scope.

Lemma shl_align_noop :
  forall m e e', e <= e' -> shl_align m e e' = (m, e).
Proof.
  intros m e e' H. unfold shl_align.
  destruct (e' - e) as [|d|d] eqn:Ed; try reflexivity. lia.
Qed.

Lemma binary_round_aux_exact :
  forall s P M E j,
    0 <= j -> Zpos M = Zpos P * 2 ^ j ->
    fexp prec emax (Zpos (digits2_pos M) + E) = E + j -> E + j <= 971 ->
    binary_round_aux prec emax s (Zpos M) E loc_Exact = S754_finite s P (E + j).
Proof.
  intros s P M E j Hj HM Hf Hmax.
  unfold binary_round_aux.
  assert (H1 : shr_fexp prec emax (Zpos M) E loc_Exact
               = ({| shr_m := Zpos P; shr_r := false; shr_s := false |}, E + j)).
  { unfold shr_fexp. simpl Zdigits2. rewrite Hf.
    replace (E + j - E) with j by lia. unfold shr. simpl shr_record_of_loc.
    destruct j as [|jp|jp]; try lia.
    - rewrite Z.pow_0_r, Z.mul_1_r in HM. inversion HM; subst M.
      rewrite Z.add_0_r. reflexivity.
    - rewrite (shr_exact jp P M HM). reflexivity. }
  rewrite H1. simpl shr_m. simpl loc_of_shr_record. simpl round_nearest_even.
  assert (H2 : shr_fexp prec emax (Zpos P) (E + j) loc_Exact
               = ({| shr_m := Zpos P; shr_r := false; shr_s := false |}, E + j)).
  { unfold shr_fexp. simpl Zdigits2.
    rewrite (digits2_pos_shift M P j Hj HM) in Hf.
    replace (Zpos (digits2_pos P) + (E + j)) with (Zpos (digits2_pos P) + j + E) by lia.
    rewrite Hf, Z.sub_diag. reflexivity. }
  rewrite H2. simpl shr_m.
  replace (E + j <=? emax - prec) with true; [reflexivity|].
  symmetry. apply Z.leb_le. change (emax - prec) with 971. exact Hmax.
Qed.

Lemma binary_round_exact :
  forall s m q k M,
    0 <= k -> Zpos M = Zpos m * 2 ^ k ->
    fexp prec emax (Zpos (digits2_pos m) + q) <= q -> q <= 971 ->
    binary_round prec emax s M (q - k) = canonical s m q.
Proof.
  intros s m q k M Hk HM He Hq. unfold binary_round, canonical.
  rewrite (digits2_pos_shift M m k Hk HM).
  replace (Zpos (digits2_pos m) + k + (q - k)) with (Zpos (digits2_pos m) + q) by lia.
  set (e := fexp prec emax (Zpos (digits2_pos m) + q)) in *.
  assert (Hpow : 0 < 2 ^ (q - e)) by (apply Z.pow_pos_nonneg; lia).
  assert (HP : Zpos (Z.to_pos (Zpos m * 2 ^ (q - e))) = Zpos m * 2 ^ (q - e))
    by (apply Z2Pos.id; nia).
  destruct (Z_lt_le_dec e (q - k)) as [Hlt|Hge].
  - pose proof (shl_align_value M (q - k) e ltac:(lia)) as Hv.
    pose proof (shl_align_exponent M (q - k) e ltac:(lia)) as Hx.
    destruct (shl_align M (q - k) e) as [mz ez]. cbn [fst snd] in Hv, Hx. subst ez.
    assert (Hmz : mz = Z.to_pos (Zpos m * 2 ^ (q - e))).
    { apply Pos2Z.inj. rewrite HP, Hv, HM.
      replace (q - e) with (k + (q - k - e)) by lia.
      rewrite Z.pow_add_r by lia. lia. }
    rewrite <- Hmz.
    pose proof (binary_round_aux_exact s mz mz e 0) as Hr.
    rewrite Z.add_0_r, Z.pow_0_r, Z.mul_1_r in Hr.
    apply Hr; try lia.
    rewrite (digits2_pos_shift mz M (q - k - e)) by (lia || exact Hv).
    rewrite (digits2_pos_shift M m k Hk HM).
    replace (Zpos (digits2_pos m) + k + (q - k - e) + e) with (Zpos (digits2_pos m) + q) by lia.
    reflexivity.
  - rewrite shl_align_noop by lia.
    pose proof (binary_round_aux_exact s (Z.to_pos (Zpos m * 2 ^ (q - e))) M (q - k) (e - (q - k))) as Hr.
    replace (q - k + (e - (q - k))) with e in Hr by lia.
    apply Hr; try lia.
    + rewrite HP, HM.
      replace k with ((q - e) + (e - (q - k))) at 1 by lia.
      rewrite Z.pow_add_r by lia. lia.
    + rewrite (digits2_pos_shift M m k Hk HM).
      replace (Zpos (digits2_pos m) + k + (q - k)) with (Zpos (digits2_pos m) + q) by lia.
      reflexivity.
Qed.

End Exact2.

Section Exact3.
#[local] Open Scope Z_scope.

Lemma fexp_le :
  forall m q, Zpos m < 2 ^ 53 -> -1074 <= q ->
    -1074 <= fexp prec emax (Zpos (digits2_pos m) + q) <= q.
Proof.
  intros m q Hm Hq. unfold fexp, SpecFloat.emin.
  change emax with 1024. change prec with 53.
  destruct (digits2_pos_bounds m) as [Hlo _].
  assert (Zpos (digits2_pos m) <= 53).
  { destruct (Z_le_gt_dec (Zpos (digits2_pos m)) 53) as [H|H]; [exact H|].
    assert (2 ^ 53 <= 2 ^ (Zpos (digits2_pos m) - 1)) by (apply Z.pow_le_mono_r; lia). lia. }
  lia.
Qed.

(** The parts of a canonical form. *)
Lemma canonical_parts :
  forall s m q, Zpos m < 2 ^ 53 -> -1074 <= q <= 971 ->
    exists P e,
      canonical s m q = S754_finite s P e
      /\ -1074 <= e <= q
      /\ Zpos P = Zpos m * 2 ^ (q - e)
      /\ bounded prec emax P e = true.
Proof.
  intros s m q Hm Hq. unfold canonical.
  pose proof (fexp_le m q Hm ltac:(lia)) as He.
  set (e := fexp prec emax (Zpos (digits2_pos m) + q)) in *.
  assert (Hpow : 0 < 2 ^ (q - e)) by (apply Z.pow_pos_nonneg; lia).
  assert (HP : Zpos (Z.to_pos (Zpos m * 2 ^ (q - e))) = Zpos m * 2 ^ (q - e))
    by (apply Z2Pos.id; nia).
  exists (Z.to_pos (Zpos m * 2 ^ (q - e))), e.
  repeat split; try lia; try exact HP.
  unfold bounded, canonical_mantissa.
  rewrite (digits2_pos_shift _ m (q - e) ltac:(lia) HP).
  replace (Zpos (digits2_pos m) + (q - e) + e) with (Zpos (digits2_pos m) + q) by lia.
  fold e. rewrite Z.eqb_refl. simpl. apply Z.leb_le. change (emax - prec) with 971. lia.
Qed.

Lemma fixed_sf_valid :
  forall c q, fits c q -> valid_binary (fixed_sf c q) = true.
Proof.
  intros [|m|m] q [Hc Hq]; simpl fixed_sf; [reflexivity| |].
  - destruct (canonical_parts false m q ltac:(lia) Hq) as (P & e & E & _ & _ & Hb).
    rewrite E. exact Hb.
  - destruct (canonical_parts true m q ltac:(lia) Hq) as (P & e & E & _ & _ & Hb).
    rewrite E. exact Hb.
Qed.

(** Rounding [c * 2^k] at exponent [q - k] gives the canonical form of
    [c * 2^q]: nothing is lost. *)
Lemma binary_normalize_exact :
  forall c q k, fits c q -> 0 <= k ->
    binary_normalize prec emax (c * 2 ^ k) (q - k) false = fixed_sf c q.
Proof.
  intros c q k [Hc Hq] Hk.
  assert (Hpow : 0 < 2 ^ k) by (apply Z.pow_pos_nonneg; lia).
  destruct c as [|m|m].
  - reflexivity.
  - destruct (Zpos m * 2 ^ k) as [|M|M] eqn:EM; try nia.
    simpl. apply binary_round_exact; try lia.
    apply fexp_le; lia.
  - destruct (Zneg m * 2 ^ k) as [|M|M] eqn:EM; try nia.
    simpl. apply binary_round_exact; try lia.
    apply fexp_le; lia.
Qed.

(** The mantissa of a canonical form, brought to a lesser exponent. *)
Lemma fixed_sf_finite :
  forall c q, c <> 0 -> fits c q ->
    exists P e,
      fixed_sf c q = S754_finite (c <? 0) P e
      /\ -1074 <= e <= q
      /\ bounded prec emax P e = true
      /\ forall ez, ez <= e ->
           cond_Zopp (c <? 0) (Zpos (fst (shl_align P e ez))) = c * 2 ^ (q - ez).
Proof.
  intros c q Hc0 [Hc Hq].
  destruct c as [|m|m]; [contradiction| |]; simpl fixed_sf;
    [destruct (canonical_parts false m q ltac:(lia) Hq) as (P & e & E & He & HP & Hb)
    |destruct (canonical_parts true m q ltac:(lia) Hq) as (P & e & E & He & HP & Hb)];
    exists P, e; (split; [exact E|]); (split; [exact He|]); (split; [exact Hb|]);
    intros ez Hez; rewrite (shl_align_value P e ez Hez), HP;
    replace (q - ez) with ((q - e) + (e - ez)) by lia;
    rewrite Z.pow_add_r by lia;
    [change (Z.pos m <? 0) with false | change (Z.neg m <? 0) with true];
    unfold cond_Zopp; rewrite <- ?Pos2Z.opp_pos; ring.
Qed.

End Exact3.

Section Exact4.
#[local] Open Scope Z_scope.

Lemma fits_abs_lt : forall c q, fits c q -> Z.abs c < 2 ^ 53.
Proof. intros c q [H _]. exact H. Qed.

Lemma mul_compare_mono_r :
  forall p n m, 0 < p -> (n * p ?= m * p) = (n ?= m).
Proof.
  intros p n m Hp. destruct (Z.compare_spec n m) as [H|H|H].
  - subst. apply Z.compare_refl.
  - apply Z.compare_lt_iff. nia.
  - apply Z.compare_gt_iff. nia.
Qed.

(** Addition of two multiples of [2^q] is exact when the sum fits. *)
Lemma SFadd_fixed :
  forall a b q, fits a q -> fits b q -> fits (a + b) q ->
    SFadd prec emax (fixed_sf a q) (fixed_sf b q) = fixed_sf (a + b) q.
Proof.
  intros a b q Ha Hb Hab.
  destruct (Z.eq_dec a 0) as [Za|Za]; [subst a|].
  { simpl. destruct (Z.eq_dec b 0) as [Zb|Zb]; [subst b; reflexivity|].
    destruct (fixed_sf_finite b q Zb Hb) as (P & e & E & _). rewrite E. reflexivity. }
  destruct (Z.eq_dec b 0) as [Zb|Zb]; [subst b|].
  { rewrite Z.add_0_r. simpl.
    destruct (fixed_sf_finite a q Za Ha) as (P & e & E & _). rewrite E. reflexivity. }
  destruct (fixed_sf_finite a q Za Ha) as (Pa & ea & Ea & Hea & _ & Va).
  destruct (fixed_sf_finite b q Zb Hb) as (Pb & eb & Eb & Heb & _ & Vb).
  rewrite Ea, Eb. unfold SFadd.
  rewrite (Va (Z.min ea eb)) by apply Z.le_min_l.
  rewrite (Vb (Z.min ea eb)) by apply Z.le_min_r.
  rewrite <- Z.mul_add_distr_r.
  replace (Z.min ea eb) with (q - (q - Z.min ea eb)) at 2 by lia.
  apply binary_normalize_exact; [exact Hab | lia].
Qed.

Lemma SFsub_fixed :
  forall a b q, fits a q -> fits b q -> fits (a - b) q ->
    SFsub prec emax (fixed_sf a q) (fixed_sf b q) = fixed_sf (a - b) q.
Proof.
  intros a b q Ha Hb Hab.
  destruct (Z.eq_dec b 0) as [Zb|Zb]; [subst b|].
  { rewrite Z.sub_0_r. simpl.
    destruct (Z.eq_dec a 0) as [Za|Za]; [subst a; reflexivity|].
    destruct (fixed_sf_finite a q Za Ha) as (P & e & E & _). rewrite E. reflexivity. }
  destruct (Z.eq_dec a 0) as [Za|Za]; [subst a|].
  { simpl. destruct b as [|m|m]; [contradiction| |]; reflexivity. }
  destruct (fixed_sf_finite a q Za Ha) as (Pa & ea & Ea & Hea & _ & Va).
  destruct (fixed_sf_finite b q Zb Hb) as (Pb & eb & Eb & Heb & _ & Vb).
  rewrite Ea, Eb. unfold SFsub.
  rewrite (Va (Z.min ea eb)) by apply Z.le_min_l.
  rewrite (Vb (Z.min ea eb)) by apply Z.le_min_r.
  rewrite <- Z.mul_sub_distr_r.
  replace (Z.min ea eb) with (q - (q - Z.min ea eb)) at 2 by lia.
  apply binary_normalize_exact; [exact Hab | lia].
Qed.

(** Multiples of [2^q] compare as their multipliers do. *)
Lemma SFcompare_fixed :
  forall a b q, fits a q -> fits b q ->
    SFcompare (fixed_sf a q) (fixed_sf b q) = Some (a ?= b).
Proof.
  intros a b q Ha Hb.
  destruct (Z.eq_dec a 0) as [Za|Za]; [subst a|].
  { destruct (Z.eq_dec b 0) as [Zb|Zb]; [subst b; reflexivity|].
    destruct (fixed_sf_finite b q Zb Hb) as (P & e & E & _). rewrite E. simpl.
    destruct b; [contradiction| |]; reflexivity. }
  destruct (Z.eq_dec b 0) as [Zb|Zb]; [subst b|].
  { destruct (fixed_sf_finite a q Za Ha) as (P & e & E & _). rewrite E. simpl.
    destruct a; [contradiction| |]; reflexivity. }
  destruct (fixed_sf_finite a q Za Ha) as (Pa & ea & Ea & Hea & Ba & Va).
  destruct (fixed_sf_finite b q Zb Hb) as (Pb & eb & Eb & Heb & Bb & Vb).
  rewrite Ea, Eb. simpl SFcompare.
  pose proof (compare_aligned Pa ea Pb eb Ba Bb) as Hc.
  rewrite <- (shl_align_value Pa ea (Z.min ea eb)) in Hc by apply Z.le_min_l.
  rewrite <- (shl_align_value Pb eb (Z.min ea eb)) in Hc by apply Z.le_min_r.
  specialize (Va (Z.min ea eb) (Z.le_min_l _ _)).
  specialize (Vb (Z.min ea eb) (Z.le_min_r _ _)).
  assert (Hpow : 0 < 2 ^ (q - Z.min ea eb)) by (apply Z.pow_pos_nonneg; lia).
  destruct (a <? 0) eqn:Sa, (b <? 0) eqn:Sb; simpl cond_Zopp in Va, Vb; f_equal.
  - replace (match ea ?= eb with Eq => CompOpp (PosDef.Pos.compare_cont Eq Pa Pb) | Lt => Gt | Gt => Lt end)
      with (CompOpp (match ea ?= eb with Eq => PosDef.Pos.compare_cont Eq Pa Pb | Lt => Lt | Gt => Gt end))
      by (destruct (ea ?= eb); reflexivity).
    rewrite Hc, <- (mul_compare_mono_r (2 ^ (q - Z.min ea eb)) a b Hpow), <- Va, <- Vb.
    reflexivity.
  - apply Z.ltb_lt in Sa. apply Z.ltb_ge in Sb. symmetry. apply Z.compare_lt_iff. lia.
  - apply Z.ltb_ge in Sa. apply Z.ltb_lt in Sb. symmetry. apply Z.compare_gt_iff. lia.
  - rewrite Hc, Va, Vb. apply mul_compare_mono_r. exact Hpow.
Qed.

End Exact4.

Lemma Prim2SF_fixed :
  forall c q, fits c q -> Prim2SF (fixed c q) = fixed_sf c q.
Proof.
  intros c q H. unfold fixed. apply Prim2SF_SF2Prim, fixed_sf_valid, H.
Qed.

Lemma add_fixed :
  forall a b q, fits a q -> fits b q -> fits (a + b) q ->
    fixed a q + fixed b q = fixed (a + b)%Z q.
Proof.
  intros a b q Ha Hb Hab. apply Prim2SF_inj.
  rewrite add_spec, !Prim2SF_fixed by assumption.
  apply SFadd_fixed; assumption.
Qed.

Lemma sub_fixed :
  forall a b q, fits a q -> fits b q -> fits (a - b) q ->
    fixed a q - fixed b q = fixed (a - b)%Z q.
Proof.
  intros a b q Ha Hb Hab. apply Prim2SF_inj.
  rewrite sub_spec, !Prim2SF_fixed by assumption.
  apply SFsub_fixed; assumption.
Qed.

Lemma ltb_fixed :
  forall a b q, fits a q -> fits b q ->
    (fixed a q <? fixed b q) = (a <? b)%Z.
Proof.
  intros a b q Ha Hb.
  rewrite ltb_spec, !Prim2SF_fixed by assumption.
  unfold SFltb, Z.ltb. rewrite SFcompare_fixed by assumption. reflexivity.
Qed.

Lemma leb_fixed :
  forall a b q, fits a q -> fits b q ->
    (fixed a q <=? fixed b q) = (a <=? b)%Z.
Proof.
  intros a b q Ha Hb.
  rewrite leb_spec, !Prim2SF_fixed by assumption.
  unfold SFleb, Z.leb. rewrite SFcompare_fixed by assumption.
  destruct (a ?= b)%Z; reflexivity.
Qed.

Lemma fits_zero : forall q, (-1074 <= q <= 971)%Z -> fits 0 q.
Proof. intros q Hq. split; [reflexivity | exact Hq]. Qed.

Lemma fits_between :
  forall a b c q, fits a q -> fits b q -> (Z.abs c <= Z.max (Z.abs a) (Z.abs b))%Z -> fits c q.
Proof. intros a b c q [Ha Hq] [Hb _] Hc. split; [lia | exact Hq]. Qed.

Section ExactLoops.
Variables (b q : Z).
Hypothesis Hb : fits b q.
Hypothesis Hpos : (0 < b)%Z.

Lemma addLoop_fixed :
  forall n a, fits a q -> (- (Z.of_nat n * b) <= a)%Z ->
    addLoop (S n) (fixed a q) (fixed b q)
    = Some (fixed (if (a <? 0)%Z then a mod b else a)%Z q).
Proof.
  induction n as [|n IH]; intros a Ha Hn.
  - simpl. change 0 with (fixed 0 q).
    rewrite ltb_fixed by (assumption || apply fits_zero, Ha).
    destruct (a <? 0)%Z eqn:E; [apply Z.ltb_lt in E; lia | reflexivity].
  - change (addLoop (S (S n)) (fixed a q) (fixed b q))
      with (if fixed a q <? 0
            then addLoop (S n) (fixed a q + fixed b q) (fixed b q)
            else Some (fixed a q)).
    change 0 with (fixed 0 q).
    rewrite ltb_fixed by (assumption || apply fits_zero, Ha).
    destruct (a <? 0)%Z eqn:E; [|reflexivity].
    apply Z.ltb_lt in E.
    assert (Hab : fits (a + b) q) by (apply (fits_between a b); [assumption..|lia]).
    rewrite add_fixed by assumption.
    rewrite IH by (assumption || lia).
    f_equal. f_equal.
    destruct (a + b <? 0)%Z eqn:E'.
    + replace (a + b)%Z with (a + 1 * b)%Z by lia. apply Z_mod_plus_full.
    + apply Z.ltb_ge in E'.
      apply (Z.mod_unique_pos a b (-1) (a + b)); lia.
Qed.

Lemma subLoop_fixed :
  forall n a, fits a q -> (0 <= a < (Z.of_nat n + 1) * b)%Z ->
    subLoop (S n) (fixed a q) (fixed b q) = Some (fixed (a mod b) q).
Proof.
  induction n as [|n IH]; intros a Ha Hn.
  - simpl. rewrite leb_fixed by assumption.
    destruct (b <=? a)%Z eqn:E; [apply Z.leb_le in E; lia|].
    rewrite Z.mod_small by lia. reflexivity.
  - change (subLoop (S (S n)) (fixed a q) (fixed b q))
      with (if fixed a q >=? fixed b q
            then subLoop (S n) (fixed a q - fixed b q) (fixed b q)
            else Some (fixed a q)).
    rewrite leb_fixed by assumption.
    destruct (b <=? a)%Z eqn:E.
    + apply Z.leb_le in E.
      assert (Hab : fits (a - b) q) by (apply (fits_between a b); [assumption..|lia]).
      rewrite sub_fixed by assumption.
      rewrite IH by (assumption || lia).
      f_equal. f_equal.
      replace (a - b)%Z with (a + (-1) * b)%Z by lia. apply Z_mod_plus_full.
    + apply Z.leb_gt in E. rewrite Z.mod_small by lia. reflexivity.
Qed.

Lemma normalizeRange_fixed :
  forall a, fits a q ->
    normalizeRange (Z.to_nat (Z.abs a / b) + 2) (fixed a q) (fixed b q)
    = Some (fixed (a mod b) q).
Proof.
  intros a Ha. unfold normalizeRange.
  replace (Z.to_nat (Z.abs a / b) + 2)%nat with (S (S (Z.to_nat (Z.abs a / b)))) by lia.
  set (n := S (Z.to_nat (Z.abs a / b))).
  assert (Hn : (Z.abs a < Z.of_nat n * b)%Z).
  { unfold n. rewrite Nat2Z.inj_succ, Z2Nat.id by (apply Z.div_pos; lia).
    pose proof (Z.mod_pos_bound (Z.abs a) b Hpos).
    pose proof (Z.div_mod (Z.abs a) b ltac:(lia)). nia. }
  rewrite addLoop_fixed by (assumption || lia).
  assert (Hm : (0 <= a mod b < b)%Z) by (apply Z.mod_pos_bound; exact Hpos).
  destruct (a <? 0)%Z eqn:E.
  - rewrite subLoop_fixed.
    + rewrite Z.mod_mod by lia. reflexivity.
    + apply (fits_between a b); [assumption..|lia].
    + nia.
  - apply Z.ltb_ge in E. apply subLoop_fixed; [assumption | lia].
Qed.

End ExactLoops.

(** ** The entry points *)

(** C4: each entry point is the parametrised computation at its pair of the
    selector table, with latitude and longitude handed on as received. *)
Theorem entry_points_delegate :
  forall (math : MathLib) (fuel : nat) (today : Now) (latitude longitude : float),
    SunRise fuel today latitude longitude = sunRiseSet fuel today true latitude longitude 90.0
    /\ SunSet fuel today latitude longitude = sunRiseSet fuel today false latitude longitude 90.0
    /\ Dawn fuel today latitude longitude = sunRiseSet fuel today true latitude longitude 83.0
    /\ Dusk fuel today latitude longitude = sunRiseSet fuel today false latitude longitude 83.0.
Proof. intros. repeat split. Qed.

(** ** normalizeRange on given values *)

(** C8: [normalizeRange(370, 360) = 10], [normalizeRange(-10, 360) = 350] and
    [normalizeRange(25, 24) = 1]; each call returns once both loop conditions
    may be tested twice. *)
Theorem normalizeRange_examples :
  forall n : nat,
    normalizeRange (2 + n) 370 360 = Some 10
    /\ normalizeRange (2 + n) (-10) 360 = Some 350
    /\ normalizeRange (2 + n) 25 24 = Some 1.
Proof. intro n. repeat split. Qed.

(** ** Inputs on which normalizeRange does not return *)

Lemma subLoop_stuck :
  forall v max : float,
    (v >=? max) = true -> v - max = v ->
    forall fuel, subLoop fuel v max = None.
Proof.
  intros v max Hge Hfix fuel.
  induction fuel as [|fuel IH]; simpl.
  - reflexivity.
  - rewrite Hge, Hfix. exact IH.
Qed.

Lemma addLoop_stuck :
  forall v max : float,
    (v <? 0) = true -> v + max = v ->
    forall fuel, addLoop fuel v max = None.
Proof.
  intros v max Hlt Hfix fuel.
  induction fuel as [|fuel IH]; simpl.
  - reflexivity.
  - rewrite Hlt, Hfix. exact IH.
Qed.

(** C7, as stated, fails: [2^63] is finite, and [2^63 - 360] rounds back to
    [2^63], so the second loop of [normalizeRange(2^63, 360)] never ends. *)
Lemma normalizeRange_diverges_at_2p63 :
  is_finite 9223372036854775808 = true
  /\ (0 <? 360) = true
  /\ 9223372036854775808 - 360 = 9223372036854775808
  /\ normalizeRange_diverges 9223372036854775808 360.
Proof.
  repeat split.
  intro fuel. unfold normalizeRange.
  destruct fuel as [|fuel]; [reflexivity|].
  change (addLoop (S fuel) 9223372036854775808 360) with (Some 9223372036854775808).
  apply subLoop_stuck; reflexivity.
Qed.

(** C6, as stated, fails: [-1e300] is finite and [360] is positive, but
    [-1e300 + 360] rounds back to [-1e300]; the first loop never ends and the
    call has no result to lie in [[0, 360)]. *)
Lemma normalizeRange_no_result_at_minus_1e300 :
  is_finite (-1e300) = true
  /\ (0 <? 360) = true
  /\ forall fuel r, normalizeRange fuel (-1e300) 360 <> Some r.
Proof.
  repeat split.
  intros fuel r. unfold normalizeRange.
  rewrite addLoop_stuck by reflexivity. discriminate.
Qed.

(** ** What normalizeRange returns *)

(** More fuel does not change a result. *)
Lemma addLoop_more_fuel :
  forall fuel v max r, addLoop fuel v max = Some r ->
    forall fuel', (fuel <= fuel')%nat -> addLoop fuel' v max = Some r.
Proof.
  induction fuel as [|fuel IH]; intros v max r H fuel' Hle; [discriminate|].
  destruct fuel' as [|fuel']; [lia|]. simpl in *.
  destruct (v <? 0); [apply IH; [exact H | lia] | exact H].
Qed.

Lemma subLoop_more_fuel :
  forall fuel v max r, subLoop fuel v max = Some r ->
    forall fuel', (fuel <= fuel')%nat -> subLoop fuel' v max = Some r.
Proof.
  induction fuel as [|fuel IH]; intros v max r H fuel' Hle; [discriminate|].
  destruct fuel' as [|fuel']; [lia|]. simpl in *.
  destruct (v >=? max); [apply IH; [exact H | lia] | exact H].
Qed.

Lemma normalizeRange_more_fuel :
  forall fuel v max r, normalizeRange fuel v max = Some r ->
    forall fuel', (fuel <= fuel')%nat -> normalizeRange fuel' v max = Some r.
Proof.
  unfold normalizeRange. intros fuel v max r H fuel' Hle.
  destruct (addLoop fuel v max) as [v'|] eqn:Ea; [|discriminate].
  rewrite (addLoop_more_fuel _ _ _ _ Ea _ Hle).
  exact (subLoop_more_fuel _ _ _ _ H _ Hle).
Qed.

(** The first loop leaves with a number that is not below zero. *)
Lemma addLoop_exit :
  forall fuel v max r,
    not_nan v -> is_finite max = true ->
    addLoop fuel v max = Some r -> (0 <=? r) = true.
Proof.
  induction fuel as [|fuel IH]; intros v max r Hv Hmax H; [discriminate|].
  simpl in H. destruct (v <? 0) eqn:Elt.
  - apply (IH (v + max) max r); [apply add_not_nan; assumption | assumption | exact H].
  - inversion H; subst r. apply ltb_zero_false; assumption.
Qed.

(** The second loop keeps its variable at or above zero and leaves with it
    below [max]. *)
Lemma subLoop_exit :
  forall fuel v max r,
    (0 <=? v) = true -> positive_finite max ->
    subLoop fuel v max = Some r -> (0 <=? r) = true /\ (r <? max) = true.
Proof.
  induction fuel as [|fuel IH]; intros v max r Hv Hmax H; [discriminate|].
  simpl in H. destruct (v >=? max) eqn:Ege.
  - apply (IH (v - max) max r); [apply sub_nonneg; assumption | assumption | exact H].
  - inversion H; subst r. split; [exact Hv|].
    apply geb_false_ltb; [apply leb_zero_not_nan, Hv | | exact Ege].
    apply leb_zero_not_nan. destruct Hmax as [Hpos _].
    rewrite leb_spec. rewrite ltb_spec in Hpos.
    unfold SFltb in Hpos. unfold SFleb.
    destruct (SFcompare (Prim2SF 0) (Prim2SF max)) as [[]|]; (discriminate || reflexivity).
Qed.

(** A value already in [[0, max)] passes both loops untouched. *)
Lemma normalizeRange_in_range :
  forall n r max,
    (0 <=? r) = true -> (r <? max) = true ->
    normalizeRange (S n) r max = Some r.
Proof.
  intros n r max H0 Hmax. unfold normalizeRange. simpl.
  rewrite (leb_zero_ltb r H0). simpl.
  rewrite (ltb_geb_false r max Hmax). reflexivity.
Qed.

(** C6, amended: whenever [normalizeRange(v, max)] returns, for a [v] that is
    not NaN and a positive finite [max], the result lies in [[0, max)] and
    normalising it again returns it unchanged. *)
Theorem normalizeRange_range_idempotent :
  forall (fuel : nat) (v max r : float),
    not_nan v -> positive_finite max ->
    normalizeRange fuel v max = Some r ->
    (0 <=? r) = true /\ (r <? max) = true
    /\ forall n, normalizeRange (S n) r max = Some r.
Proof.
  intros fuel v max r Hv Hmax H. unfold normalizeRange in H.
  destruct (addLoop fuel v max) as [v'|] eqn:Ea; [|discriminate].
  pose proof (addLoop_exit fuel v max v' Hv (proj2 Hmax) Ea) as Hv'.
  destruct (subLoop_exit fuel v' max r Hv' Hmax H) as [H0 H1].
  repeat split; try assumption.
  intro n. apply normalizeRange_in_range; assumption.
Qed.

Lemma normalizeRange_range_idempotent_witness :
  not_nan 370 /\ positive_finite 360 /\ normalizeRange 2 370 360 = Some 10
  /\ (0 <=? 10) = true /\ (10 <? 360) = true
  /\ forall n, normalizeRange (S n) 10 360 = Some 10.
Proof.
  assert (Hv : not_nan 370) by reflexivity.
  assert (Hmax : positive_finite 360) by (split; reflexivity).
  assert (Hrun : normalizeRange 2 370 360 = Some 10) by reflexivity.
  refine (conj Hv (conj Hmax (conj Hrun _))).
  exact (normalizeRange_range_idempotent 2 370 360 10 Hv Hmax Hrun).
Defined.

(** ** normalizeRange on a common scale *)

(** X11: when [v = a * 2^q] and [max = b * 2^q] for integers with
    [|a| < 2^53] and [0 < b < 2^53] (every pair of integer-valued arguments
    below [2^53] is such a pair, with [q = 0]), all additions and
    subtractions are exact, each loop condition is tested at most
    [|a| / b + 2] times, and the call returns [(a mod b) * 2^q]. *)
Theorem normalizeRange_terminates_on_common_scale :
  forall a b q : Z,
    fits a q -> fits b q -> (0 < b)%Z ->
    normalizeRange (Z.to_nat (Z.abs a / b) + 2) (fixed a q) (fixed b q)
    = Some (fixed (a mod b) q).
Proof.
  intros a b q Ha Hb Hpos. apply normalizeRange_fixed; assumption.
Qed.

Lemma normalizeRange_terminates_on_common_scale_witness :
  fits (-1475) (-2) /\ fits 1440 (-2) /\ (0 < 1440)%Z
  /\ normalizeRange 3 (-368.75) 360 = Some 351.25.
Proof.
  assert (Ha : fits (-1475) (-2)) by (split; [reflexivity | lia]).
  assert (Hb : fits 1440 (-2)) by (split; [reflexivity | lia]).
  assert (Hpos : (0 < 1440)%Z) by lia.
  refine (conj Ha (conj Hb (conj Hpos _))).
  exact (normalizeRange_terminates_on_common_scale (-1475) 1440 (-2) Ha Hb Hpos).
Defined.

(** ** The hour-angle test *)

(** C1, as stated, fails: at the June solstice the cosine of the hour angle is
    above 1 at latitude -85 (the sun never rises) and below -1 at latitude 85
    (it never sets), and both calls end in the same panic. *)
Lemma never_rises_and_never_sets_conflated :
  (exists p, @sunPosition Approx.math 3 solstice true (-85) 0 90 = Returned p
             /\ (cosH p >? 1) = true)
  /\ (exists p, @sunPosition Approx.math 3 solstice true 85 0 90 = Returned p
                /\ (cosH p <? -1) = true)
  /\ @SunRise Approx.math 3 solstice (-85) 0 = Panicked "no answer"
  /\ @SunRise Approx.math 3 solstice 85 0 = Panicked "no answer".
Proof.
  split; [|split; [|split]].
  - eexists. split; [vm_compute; reflexivity | vm_compute; reflexivity].
  - eexists. split; [vm_compute; reflexivity | vm_compute; reflexivity].
  - vm_compute. reflexivity.
  - vm_compute. reflexivity.
Qed.

(** C1, amended: whenever the cosine of the hour angle is above 1 or below -1,
    the call returns no timestamp: it panics, in both cases with the one
    message "no answer". *)
Theorem hour_angle_out_of_range_panics :
  forall (math : MathLib) (fuel : nat) (today : Now) (sunrise : bool)
         (latitude longitude zenith : float) (p : position),
    sunPosition fuel today sunrise latitude longitude zenith = Returned p ->
    (cosH p >? 1) = true \/ (cosH p <? -1) = true ->
    sunRiseSet fuel today sunrise latitude longitude zenith = Panicked "no answer".
Proof.
  intros math fuel today sunrise latitude longitude zenith p Hp Hout.
  unfold sunRiseSet. rewrite Hp. simpl. unfold localMeanTime.
  destruct Hout as [H|H]; rewrite H; simpl; [reflexivity|].
  rewrite orb_true_r. reflexivity.
Qed.

(** ** The formulas *)

(** Steps 1 to 7a, whatever the loops of [normalizeRange] do: the code's
    locals are the values of the reference formulas. *)
Lemma sunPosition_steps :
  forall (math : MathLib) (fuel : nat) (today : Now) (rising : bool)
         (latitude longitude zenith : float),
    sunPosition fuel today rising latitude longitude zenith
    = (L <- loop (normalizeRange fuel
                    (Spec.L_formula (Spec.M (Spec.t rising (of_Z (YearDay today)) longitude)))
                    360) ;;
       RA0 <- loop (normalizeRange fuel (Spec.RA_formula L) 360) ;;
       Returned {| sunset := negb rising;
                   loc := FixedZone (fst (Zone today)) (snd (Zone today));
                   localOffset := of_Z (snd (Zone today)) / 3600;
                   lngHour := Spec.lngHour longitude;
                   t := Spec.t rising (of_Z (YearDay today)) longitude;
                   M := Spec.M (Spec.t rising (of_Z (YearDay today)) longitude);
                   L := L;
                   RA := Spec.RA_hours L RA0;
                   sinDec := Spec.sinDec L;
                   cosDec := Spec.cos (Spec.asin (Spec.sinDec L));
                   cosH := Spec.cosH zenith latitude (Spec.sinDec L) |})%outcome.
Proof.
  intros math fuel today rising latitude longitude zenith.
  unfold sunPosition. destruct (Zone today) as [name offset]. cbn [fst snd].
  destruct rising; reflexivity.
Qed.

(** The test of [cosH] and steps 7b and 8. *)
Lemma localMeanTime_steps :
  forall (math : MathLib) (p : position),
    localMeanTime p
    = if (cosH p >? 1) || (cosH p <? -1) then Panicked "no answer"
      else Returned (Spec.H (negb (sunset p)) (cosH p),
                     Spec.T (Spec.H (negb (sunset p)) (cosH p)) (RA p) (t p)).
Proof.
  intros math p. unfold localMeanTime.
  destruct ((cosH p >? 1) || (cosH p <? -1)); [reflexivity|].
  destruct (sunset p); reflexivity.
Qed.

(** C2: for every rising flag, latitude, longitude and zenith, and whether
    or not the normalisations return, the calculator computes the reference
    formulas with the constants as stated, trigonometry in degrees: steps 1
    to 7a are the chain of formulas from [lngHour] to [cosH], with [L] and
    [RA] passed through [normalizeRange], and a [cosH] that passes the test
    gives [H] and [T] by the formulas of steps 7b and 8. *)
Theorem nine_step_formulas :
  forall (math : MathLib) (fuel : nat) (today : Now) (rising : bool)
         (latitude longitude zenith : float),
    sunPosition fuel today rising latitude longitude zenith
    = (L <- loop (normalizeRange fuel
                    (Spec.L_formula (Spec.M (Spec.t rising (of_Z (YearDay today)) longitude)))
                    360) ;;
       RA0 <- loop (normalizeRange fuel (Spec.RA_formula L) 360) ;;
       Returned {| sunset := negb rising;
                   loc := FixedZone (fst (Zone today)) (snd (Zone today));
                   localOffset := of_Z (snd (Zone today)) / 3600;
                   lngHour := Spec.lngHour longitude;
                   t := Spec.t rising (of_Z (YearDay today)) longitude;
                   M := Spec.M (Spec.t rising (of_Z (YearDay today)) longitude);
                   L := L;
                   RA := Spec.RA_hours L RA0;
                   sinDec := Spec.sinDec L;
                   cosDec := Spec.cos (Spec.asin (Spec.sinDec L));
                   cosH := Spec.cosH zenith latitude (Spec.sinDec L) |})%outcome
    /\ forall p : position,
         localMeanTime p
         = if (cosH p >? 1) || (cosH p <? -1) then Panicked "no answer"
           else Returned (Spec.H (negb (sunset p)) (cosH p),
                          Spec.T (Spec.H (negb (sunset p)) (cosH p)) (RA p) (t p)).
Proof.
  intros math fuel today rising latitude longitude zenith.
  split; [apply sunPosition_steps | apply localMeanTime_steps].
Qed.

(** ** Concrete runs *)

Section ConcreteRuns.
#[local] Existing Instance Approx.math.

Lemma hour_angle_out_of_range_panics_witness :
  exists p,
    @sunPosition Approx.math 3 solstice true 85 0 90 = Returned p
    /\ ((cosH p >? 1) = true \/ (cosH p <? -1) = true)
    /\ @sunRiseSet Approx.math 3 solstice true 85 0 90 = Panicked "no answer".
Proof.
  destruct (@sunPosition Approx.math 3 solstice true 85 0 90) as [p| |] eqn:Hp.
  - exists p.
    assert (Hc : (cosH p >? 1) = true \/ (cosH p <? -1) = true).
    { right. vm_compute in Hp. inversion Hp. vm_compute. reflexivity. }
    refine (conj eq_refl (conj Hc _)).
    exact (hour_angle_out_of_range_panics Approx.math 3 solstice true 85 0 90 p Hp Hc).
  - vm_compute in Hp. discriminate.
  - vm_compute in Hp. discriminate.
Defined.

End ConcreteRuns.

(** * The result, termination and further properties *)

(** ** Rounding in integer terms *)

Section Shr.
#[local] Open Scope Z_scope.

Lemma shr_1_spec :
  forall m r s, 0 <= m ->
    shr_1 {| shr_m := m; shr_r := r; shr_s := s |}
    = {| shr_m := m / 2; shr_r := Z.odd m; shr_s := r || s |}.
Proof.
  intros m r s Hm. unfold shr_1.
  destruct m as [|[p|p|]|p]; try lia; try reflexivity.
  - rewrite Pos2Z.inj_xI. f_equal.
    rewrite (Z.mul_comm 2), Z.div_add_l by lia. reflexivity.
  - rewrite Pos2Z.inj_xO. f_equal.
    rewrite (Z.mul_comm 2), Z.div_mul by lia. reflexivity.
Qed.

Lemma odd_or_rem :
  forall M h, 0 <= M -> 0 < h ->
    Z.odd (M / h) || negb (M mod h =? 0) = negb (M mod (h * 2) =? 0).
Proof.
  intros M h HM Hh.
  rewrite Z.rem_mul_r by lia.
  pose proof (Z.mod_pos_bound M h Hh) as Ha.
  rewrite (Zmod_odd (M / h)).
  destruct (Z.odd (M / h)); simpl orb.
  - destruct (Z.eqb_spec (M mod h + h * 1) 0) as [E3|E3]; [lia | reflexivity].
  - rewrite Z.mul_0_r, Z.add_0_r. reflexivity.
Qed.

(** [n] right shifts of [M]: the quotient, the last bit shifted out, and
    whether anything was shifted out before it. *)
Lemma shr_iter_spec :
  forall n M, 0 <= M ->
    iter_pos shr_1 n {| shr_m := M; shr_r := false; shr_s := false |}
    = {| shr_m := M / 2 ^ Zpos n;
         shr_r := Z.odd (M / 2 ^ (Zpos n - 1));
         shr_s := negb (M mod 2 ^ (Zpos n - 1) =? 0) |}.
Proof.
  intros n M HM. rewrite iter_pos_eq.
  induction n as [|n IH] using Pos.peano_ind.
  - change (Pos.iter shr_1 ?x 1) with (shr_1 x).
    rewrite shr_1_spec by exact HM.
    change (Zpos 1 - 1) with 0. rewrite Z.pow_0_r, Z.div_1_r, Z.mod_1_r. reflexivity.
  - rewrite Pos.iter_succ, IH.
    assert (Hp : 0 < 2 ^ Zpos n) by (apply Z.pow_pos_nonneg; lia).
    assert (Hq : 0 < 2 ^ (Zpos n - 1)) by (apply Z.pow_pos_nonneg; lia).
    rewrite shr_1_spec by (apply Z.div_pos; lia).
    rewrite Pos2Z.inj_succ.
    replace (Z.succ (Zpos n) - 1) with (Zpos n) by lia.
    rewrite Z.pow_succ_r by lia.
    f_equal.
    + rewrite Z.div_div by lia. f_equal. lia.
    + replace (2 ^ Zpos n) with (2 ^ (Zpos n - 1) * 2)
        by (rewrite Z.mul_comm, <- Z.pow_succ_r by lia; f_equal; lia).
      apply odd_or_rem; lia.
Qed.

End Shr.

Section Rnd.
#[local] Open Scope Z_scope.

Lemma round_shift_spec :
  forall n M, 0 <= M ->
    let R := iter_pos shr_1 n {| shr_m := M; shr_r := false; shr_s := false |} in
    round_nearest_even (shr_m R) (loc_of_shr_record R) = round_shift M (Zpos n).
Proof.
  intros n M HM R. unfold R. rewrite shr_iter_spec by exact HM.
  unfold round_shift. cbn [shr_m].
  assert (Hq : 0 < 2 ^ (Zpos n - 1)) by (apply Z.pow_pos_nonneg; lia).
  assert (Hp : 2 ^ Zpos n = 2 ^ (Zpos n - 1) * 2)
    by (rewrite Z.mul_comm, <- Z.pow_succ_r by lia; f_equal; lia).
  set (h := 2 ^ (Zpos n - 1)) in *.
  assert (Hrem : M mod 2 ^ Zpos n = M mod h + h * ((M / h) mod 2))
    by (rewrite Hp; apply Z.rem_mul_r; lia).
  rewrite Hrem, (Zmod_odd (M / h)).
  pose proof (Z.mod_pos_bound M h Hq) as Ha.
  unfold loc_of_shr_record.
  destruct (Z.odd (M / h)); destruct (Z.eqb_spec (M mod h) 0) as [E|E]; cbn [negb].
  - rewrite E. replace (2 * (0 + h * 1) ?= 2 ^ Zpos n) with Eq
      by (symmetry; apply Z.compare_eq_iff; lia). reflexivity.
  - replace (2 * (M mod h + h * 1) ?= 2 ^ Zpos n) with Gt
      by (symmetry; apply Z.compare_gt_iff; lia). reflexivity.
  - replace (2 * (M mod h + h * 0) ?= 2 ^ Zpos n) with Lt
      by (symmetry; apply Z.compare_lt_iff; lia). reflexivity.
  - replace (2 * (M mod h + h * 0) ?= 2 ^ Zpos n) with Lt
      by (symmetry; apply Z.compare_lt_iff; lia). reflexivity.
Qed.

Lemma round_shift_bounds :
  forall M k, 0 <= M -> 0 < k ->
    M / 2 ^ k <= round_shift M k <= M / 2 ^ k + 1
    /\ 2 * 2 ^ k * round_shift M k <= 2 * M + 2 ^ k
    /\ 2 * M <= 2 * 2 ^ k * round_shift M k + 2 ^ k.
Proof.
  intros M k HM Hk. unfold round_shift.
  assert (Hp : 0 < 2 ^ k) by (apply Z.pow_pos_nonneg; lia).
  pose proof (Z.mod_pos_bound M (2 ^ k) Hp) as Hr.
  pose proof (Z.div_mod M (2 ^ k) ltac:(lia)) as Hd.
  destruct (Z.compare_spec (2 * (M mod 2 ^ k)) (2 ^ k)) as [H|H|H];
    [destruct (Z.even (M / 2 ^ k))| |]; repeat split; nia.
Qed.

Lemma Zdigits2_bounds :
  forall M, 0 < M -> 2 ^ (Zdigits2 M - 1) <= M < 2 ^ Zdigits2 M.
Proof.
  intros [|p|p] H; try lia. simpl Zdigits2. apply digits2_pos_bounds.
Qed.

Lemma Zdigits2_le :
  forall M d, 0 <= d -> 0 <= M < 2 ^ d -> Zdigits2 M <= d.
Proof.
  intros M d Hd [H0 H].
  destruct (Z.eq_dec M 0) as [E|E]; [subst; simpl; lia|].
  destruct (Zdigits2_bounds M ltac:(lia)) as [Hlo _].
  destruct (Z_le_gt_dec (Zdigits2 M) d) as [L|G]; [exact L|].
  assert (2 ^ d <= 2 ^ (Zdigits2 M - 1)) by (apply Z.pow_le_mono_r; lia). lia.
Qed.

Lemma fexp_ge_emin : forall e, -1074 <= fexp prec emax e.
Proof. intro e. unfold fexp, SpecFloat.emin. change emax with 1024. change prec with 53. lia. Qed.

Lemma fexp_eq : forall e, fexp prec emax e = Z.max (e - 53) (-1074).
Proof. reflexivity. Qed.

(** Rounding [M * 2^E] in integer terms. *)
Lemma binary_round_aux_rnd :
  forall s M E, 0 < M ->
    binary_round_aux prec emax s M E loc_Exact = pack s (rnd M E).
Proof.
  intros s M E HM. unfold binary_round_aux, rnd.
  set (t := fexp prec emax (Zdigits2 M + E)).
  pose proof (fexp_ge_emin (Zdigits2 M + E)) as Ht. fold t in Ht.
  unfold shr_fexp at 1. fold t. cbn [shr_record_of_loc].
  destruct (Z.leb_spec (t - E) 0) as [Hk|Hk].
  - assert (H1 : shr {| shr_m := M; shr_r := false; shr_s := false |} E (t - E)
                 = ({| shr_m := M; shr_r := false; shr_s := false |}, E))
      by (unfold shr; destruct (t - E); try reflexivity; lia).
    rewrite H1. cbn [shr_m loc_of_shr_record round_nearest_even].
    unfold shr_fexp. fold t. cbn [shr_record_of_loc]. rewrite H1.
    unfold pack. cbn [fst snd shr_m]. reflexivity.
  - destruct (t - E) as [|n|n] eqn:Ek; try lia.
    unfold shr. rewrite round_shift_spec by lia.
    destruct (round_shift_bounds M (Zpos n) ltac:(lia) ltac:(lia)) as ((Hlo & Hhi) & _).
    assert (Hp : 0 < 2 ^ Zpos n) by (apply Z.pow_pos_nonneg; lia).
    assert (Hq : 0 <= M / 2 ^ Zpos n < 2 ^ 53).
    { split; [apply Z.div_pos; lia|].
      apply Z.div_lt_upper_bound; [lia|].
      destruct (Zdigits2_bounds M HM) as [_ Hd].
      rewrite <- Z.pow_add_r by lia.
      apply Z.lt_le_trans with (1 := Hd). apply Z.pow_le_mono_r; [lia|].
      pose proof (fexp_eq (Zdigits2 M + E)) as Hteq. fold t in Hteq. lia. }
    replace (E + Zpos n) with t by lia.
    set (m2 := round_shift M (Zpos n)) in *.
    unfold shr_fexp. cbn [shr_record_of_loc].
    destruct (Z.eqb_spec m2 (2 ^ 53)) as [E2|E2].
    + rewrite E2. change (Zdigits2 (2 ^ 53)) with 54.
      replace (fexp prec emax (54 + t) - t) with 1 by (rewrite fexp_eq; lia).
      unfold pack. cbn [fst snd]. reflexivity.
    + assert (Hd2 : Zdigits2 m2 <= 53) by (apply Zdigits2_le; lia).
      assert (H1 : shr {| shr_m := m2; shr_r := false; shr_s := false |} t
                     (fexp prec emax (Zdigits2 m2 + t) - t)
                   = ({| shr_m := m2; shr_r := false; shr_s := false |}, t)).
      { unfold shr. destruct (fexp prec emax (Zdigits2 m2 + t) - t) eqn:Ef; try reflexivity.
        rewrite fexp_eq in Ef. lia. }
      rewrite H1. unfold pack. cbn [fst snd shr_m]. reflexivity.
Qed.

End Rnd.

(** ** Canonical forms of values *)

Section Values.
#[local] Open Scope Z_scope.

Lemma binary_normalize_fixed :
  forall c q, fits c q -> binary_normalize prec emax c q false = fixed_sf c q.
Proof.
  intros c q H. pose proof (binary_normalize_exact c q 0 H ltac:(lia)) as E.
  rewrite Z.pow_0_r, Z.mul_1_r, Z.sub_0_r in E. exact E.
Qed.

(** The same number on a finer scale. *)
Lemma fixed_sf_rescale :
  forall c q j, fits c q -> fits (c * 2 ^ j) (q - j) -> 0 <= j ->
    fixed_sf (c * 2 ^ j) (q - j) = fixed_sf c q.
Proof.
  intros c q j Hc Hcj Hj.
  rewrite <- (binary_normalize_fixed _ _ Hcj).
  apply binary_normalize_exact; assumption.
Qed.

(** A valid finite number is the canonical form of its mantissa at its
    exponent. *)
Lemma bounded_fixed :
  forall s m e, bounded prec emax m e = true ->
    S754_finite s m e = fixed_sf (cond_Zopp s (Zpos m)) e /\ fits (Zpos m) e.
Proof.
  intros s m e Hb.
  pose proof (bounded_inv m e Hb) as (He & Hm & _).
  unfold bounded, canonical_mantissa in Hb.
  apply andb_true_iff in Hb. destruct Hb as [Hc _]. apply Z.eqb_eq in Hc.
  split; [|split; [simpl; lia | lia]].
  destruct s; simpl; unfold canonical; rewrite Hc, Z.sub_diag, Z.pow_0_r, Z.mul_1_r;
    reflexivity.
Qed.

Lemma fixed_of_Prim2SF :
  forall x s m e, Prim2SF x = S754_finite s m e ->
    x = fixed (cond_Zopp s (Zpos m)) e /\ fits (cond_Zopp s (Zpos m)) e.
Proof.
  intros x s m e E.
  pose proof (Prim2SF_valid x) as Hv. rewrite E in Hv. simpl in Hv.
  destruct (bounded_fixed s m e Hv) as [Hf Hfit].
  split.
  - unfold fixed. rewrite <- Hf, <- E. symmetry. apply SF2Prim_Prim2SF.
  - destruct s; simpl; [|exact Hfit]. destruct Hfit as [H1 H2]. split; [simpl in *; lia | exact H2].
Qed.

Lemma fixed_rescale :
  forall c q j, fits c q -> fits (c * 2 ^ j) (q - j) -> 0 <= j ->
    fixed (c * 2 ^ j) (q - j) = fixed c q.
Proof.
  intros c q j Hc Hcj Hj. unfold fixed. f_equal. apply fixed_sf_rescale; assumption.
Qed.

Lemma of_Z_fixed : forall n, fits n 0 -> of_Z n = fixed n 0.
Proof.
  intros n H. unfold of_Z, fixed. f_equal. apply binary_normalize_fixed, H.
Qed.

(** A valid positive number [m * 2^e] against a positive integer [b]. *)
Lemma SFcompare_finite_fixed :
  forall m e b, bounded prec emax m e = true -> fits b 0 -> 0 < b ->
    SFcompare (S754_finite false m e) (fixed_sf b 0)
    = Some (Zpos m * 2 ^ (e - Z.min e 0) ?= b * 2 ^ (- Z.min e 0)).
Proof.
  intros m e b Hm Hb Hpos.
  destruct (fixed_sf_finite b 0 ltac:(lia) Hb) as (Pb & eb & Eb & Heb & Bb & Vb).
  rewrite Eb. replace (b <? 0) with false in * by (symmetry; apply Z.ltb_ge; lia).
  cbn [SFcompare]. f_equal.
  rewrite (compare_aligned m e Pb eb Hm Bb).
  specialize (Vb (Z.min e eb) (Z.le_min_r _ _)). cbn [cond_Zopp] in Vb.
  rewrite (shl_align_value Pb eb (Z.min e eb)) in Vb by apply Z.le_min_r.
  rewrite Vb.
  set (ez := Z.min e eb). set (z0 := Z.min e 0).
  assert (Hz : ez <= z0) by (unfold ez, z0; lia).
  assert (Hp : 0 < 2 ^ (z0 - ez)) by (apply Z.pow_pos_nonneg; lia).
  rewrite <- (mul_compare_mono_r (2 ^ (z0 - ez)) (Zpos m * 2 ^ (e - z0)) (b * 2 ^ (- z0)) Hp).
  rewrite <- !Z.mul_assoc, <- !Z.pow_add_r by (unfold ez, z0; lia).
  f_equal; f_equal; f_equal; unfold ez, z0; lia.
Qed.

End Values.

(** ** Floor, conversion to an integer and the fields of a time of day *)

Lemma toInt_fixed :
  forall k, (0 <= k < 2 ^ 53)%Z -> toInt (fixed k 0) = k.
Proof.
  intros k Hk.
  assert (Hf : fits k 0) by (split; lia).
  unfold toInt. rewrite (Prim2SF_fixed k 0 Hf).
  destruct k as [|mk|mk]; try lia; [reflexivity|].
  cbn [fixed_sf].
  destruct (canonical_parts false mk 0 ltac:(lia) ltac:(lia)) as (P & e & E & He & HP & _).
  rewrite E. cbn [cond_Zopp].
  assert (Hpow : (0 < 2 ^ (0 - e))%Z) by (apply Z.pow_pos_nonneg; lia).
  assert (Ha : (if (0 <=? e)%Z then Zpos P * 2 ^ e else Zpos P / 2 ^ (- e))%Z = Zpos mk).
  { destruct (Z.leb_spec 0 e) as [H|H].
    - replace e with 0%Z in * by lia. rewrite HP. simpl. lia.
    - rewrite HP. replace (0 - e)%Z with (- e)%Z by lia. apply Z.div_mul. lia. }
  rewrite Ha. unfold minInt64, maxInt64.
  replace ((- 2 ^ 63 <=? Zpos mk) && (Zpos mk <=? 2 ^ 63 - 1))%Z with true; [reflexivity|].
  symmetry. apply andb_true_iff. split; apply Z.leb_le; lia.
Qed.

(** [math.Floor] on a number in [[0, b)], [b] a positive integer: the floor
    converts to an integer below [b], and the fraction left over is computed
    exactly and lies in [[0, 1)]. *)
Lemma floor_frac :
  forall (x : float) (b : Z),
    (0 < b)%Z -> fits b 0 ->
    (0 <=? x) = true -> (x <? fixed b 0) = true ->
    (0 <= toInt (Floor x) < b)%Z
    /\ (0 <=? x - Floor x) = true
    /\ (x - Floor x <? 1) = true.
Proof.
  intros x b Hb Hfb H0 Hlt.
  pose proof (Prim2SF_valid x) as Hv.
  rewrite leb_spec in H0. rewrite ltb_spec, (Prim2SF_fixed b 0 Hfb) in Hlt.
  change (Prim2SF 0) with (S754_zero false) in H0.
  destruct (Prim2SF x) as [s|s| |s m e] eqn:E.
  - (* zero *)
    assert (HF : Floor x = x) by (unfold Floor; rewrite E; reflexivity).
    rewrite HF. unfold toInt. rewrite E.
    split; [lia|].
    rewrite leb_spec, ltb_spec, sub_spec, E.
    destruct s; split; reflexivity.
  - (* infinity *)
    exfalso. destruct (fixed_sf_finite b 0 ltac:(lia) Hfb) as (P & e & Eb & _).
    rewrite Eb in Hlt. destruct s; discriminate.
  - discriminate.
  - (* finite *)
    destruct s; [discriminate|]. simpl in Hv.
    destruct (fixed_of_Prim2SF x false m e E) as [Hx Hfx]. cbn [cond_Zopp] in Hx, Hfx.
    unfold SFltb in Hlt. rewrite (SFcompare_finite_fixed m e b Hv Hfb Hb) in Hlt.
    assert (Hcmp : (Zpos m * 2 ^ (e - Z.min e 0) < b * 2 ^ (- Z.min e 0))%Z).
    { destruct (Z.compare_spec (Zpos m * 2 ^ (e - Z.min e 0)) (b * 2 ^ (- Z.min e 0)));
        try discriminate. assumption. }
    clear Hlt.
    destruct Hfb as [Hb53 _]. destruct Hfx as [Hm53 He].
    destruct (Z.leb_spec 0 e) as [Hpos|Hneg].
    + (* an integer already *)
      rewrite Z.min_r, Z.sub_0_r in Hcmp by lia.
      change (- 0)%Z with 0%Z in Hcmp. rewrite Z.pow_0_r, Z.mul_1_r in Hcmp.
      assert (HF : Floor x = x).
      { unfold Floor. rewrite E. replace (0 <=? e)%Z with true by (symmetry; apply Z.leb_le; lia).
        reflexivity. }
      rewrite HF. split.
      * unfold toInt. rewrite E. cbn [cond_Zopp].
        replace (0 <=? e)%Z with true by (symmetry; apply Z.leb_le; lia).
        assert (0 < Zpos m * 2 ^ e)%Z by (apply Z.mul_pos_pos; [lia | apply Z.pow_pos_nonneg; lia]).
        unfold minInt64, maxInt64.
        replace ((- 2 ^ 63 <=? Zpos m * 2 ^ e) && (Zpos m * 2 ^ e <=? 2 ^ 63 - 1))%Z with true.
        -- lia.
        -- symmetry. apply andb_true_iff. split; apply Z.leb_le; lia.
      * rewrite Hx, sub_fixed by (try (split; simpl; lia); rewrite Z.sub_diag; apply fits_zero; lia).
        rewrite Z.sub_diag. split; reflexivity.
    + (* a fraction to drop *)
      rewrite Z.min_l, Z.sub_diag, Z.pow_0_r, Z.mul_1_r in Hcmp by lia.
      set (k := (Zpos m / 2 ^ (- e))%Z).
      assert (Hpow : (0 < 2 ^ (- e))%Z) by (apply Z.pow_pos_nonneg; lia).
      assert (Hk : (0 <= k < b)%Z).
      { unfold k. split; [apply Z.div_pos; lia|].
        apply Z.div_lt_upper_bound; lia. }
      assert (Hdm : (Zpos m = 2 ^ (- e) * k + Zpos m mod 2 ^ (- e))%Z)
        by (apply Z.div_mod; lia).
      pose proof (Z.mod_pos_bound (Zpos m) (2 ^ (- e)) Hpow) as Hr.
      assert (HF : Floor x = fixed k 0).
      { unfold Floor. rewrite E.
        replace (0 <=? e)%Z with false by (symmetry; apply Z.leb_gt; lia).
        cbn [cond_Zopp]. fold k. apply of_Z_fixed. split; lia. }
      rewrite HF. split; [rewrite toInt_fixed by lia; exact Hk|].
      assert (Hfk : fits k 0) by (split; lia).
      assert (Hfk' : fits (k * 2 ^ (- e)) (0 - - e)) by (split; [|lia]; nia).
      rewrite <- (fixed_rescale k 0 (- e) Hfk Hfk' ltac:(lia)).
      replace (0 - - e)%Z with e by lia.
      replace (0 - - e)%Z with e in Hfk' by lia.
      rewrite Hx.
      assert (Hfr : fits (Zpos m - k * 2 ^ (- e)) e) by (split; [|lia]; nia).
      rewrite sub_fixed by (assumption || (split; simpl; lia)).
      split.
      * change 0 with (fixed 0 e).
        rewrite leb_fixed by (assumption || (apply fits_zero; lia)).
        apply Z.leb_le. nia.
      * destruct (Z_le_gt_dec (-52) e) as [Hbig|Hsmall].
        -- change 1 with (fixed 1 0).
           assert (Hp52 : (2 ^ (- e) <= 2 ^ 52)%Z) by (apply Z.pow_le_mono_r; lia).
           assert (Hf1 : fits (1 * 2 ^ (- e)) (0 - - e)) by (split; [|lia]; nia).
           rewrite <- (fixed_rescale 1 0 (- e) ltac:(split; simpl; lia) Hf1 ltac:(lia)).
           replace (0 - - e)%Z with e by lia.
           replace (0 - - e)%Z with e in Hf1 by lia.
           rewrite ltb_fixed by assumption.
           apply Z.ltb_lt. nia.
        -- assert (Hp53 : (2 ^ 53 <= 2 ^ (- e))%Z) by (apply Z.pow_le_mono_r; lia).
           assert (Hk0 : k = 0%Z) by (unfold k; apply Z.div_small; lia).
           rewrite Hk0, Z.mul_0_l, Z.sub_0_r, <- Hx.
           rewrite ltb_spec, E. change 1 with (fixed 1 0).
           rewrite (Prim2SF_fixed 1 0 ltac:(split; simpl; lia)).
           unfold SFltb. rewrite (SFcompare_finite_fixed m e 1 Hv ltac:(split; simpl; lia) ltac:(lia)).
           rewrite Z.min_l, Z.sub_diag, Z.pow_0_r, Z.mul_1_r, Z.mul_1_l by lia.
           replace (Zpos m ?= 2 ^ (- e))%Z with Lt; [reflexivity|].
           symmetry. apply Z.compare_lt_iff. lia.
Qed.

Section Mul60.
#[local] Open Scope Z_scope.

(** The mantissa and exponent to which [m * 2^e * 60] is rounded, for a
    valid [m * 2^e] below 1: below those of 60 = (15 * 2^49) * 2^-47. *)
Lemma rnd_mul60 :
  forall m e,
    Zpos m < 2 ^ 53 -> e <= -53 ->
    let r := rnd (Zpos m * (15 * 2 ^ 49)) (e - 47) in
    0 <= fst r
    /\ (snd r < -47 \/ (snd r = -47 /\ fst r < 15 * 2 ^ 49)).
Proof.
  intros m e Hm He. unfold rnd.
  set (M := Zpos m * (15 * 2 ^ 49)).
  assert (HM : 0 < M < 2 ^ 106) by (unfold M; lia).
  assert (Hd : Zdigits2 M <= 106) by (apply Zdigits2_le; lia).
  pose proof (fexp_eq (Zdigits2 M + (e - 47))) as Ht.
  set (t := fexp prec emax (Zdigits2 M + (e - 47))) in *.
  destruct (Z.leb_spec (t - (e - 47)) 0) as [Hk|Hk]; cbn [fst snd].
  - split; [lia | left; lia].
  - set (k := t - (e - 47)) in *.
    destruct (round_shift_bounds M k ltac:(lia) Hk) as ((Hlo & Hhi) & Hup & _).
    assert (Hq : 0 <= M / 2 ^ k) by (apply Z.div_pos; [lia | apply Z.pow_pos_nonneg; lia]).
    assert (Hedge : t = -47 -> round_shift M k < 15 * 2 ^ 49).
    { intro Et. assert (Ek : k = 53) by (unfold k; lia).
      rewrite Ek in Hup |- *.
      assert (HMdef : M = Zpos m * (15 * 2 ^ 49)) by reflexivity.
      clearbody M. lia. }
    destruct (Z.eqb_spec (round_shift M k) (2 ^ 53)) as [E2|E2]; cbn [fst snd].
    + split; [lia|].
      destruct (Z.eq_dec t (-47)) as [Et|Et]; [specialize (Hedge Et); lia|].
      destruct (Z.eq_dec t (-48)) as [Et'|Et']; [right; split; lia | left; lia].
    + split; [lia|].
      destruct (Z.eq_dec t (-47)) as [Et|Et]; [right; split; [exact Et | exact (Hedge Et)] | left; lia].
Qed.

End Mul60.

(** A number in [[0, 1)] times 60 is in [[0, 60)], rounding included. *)
Lemma mul60_bound :
  forall x : float,
    (0 <=? x) = true -> (x <? 1) = true ->
    (0 <=? x * 60) = true /\ (x * 60 <? 60) = true.
Proof.
  intros x H0 H1.
  pose proof (Prim2SF_valid x) as Hv.
  rewrite leb_spec in H0. rewrite ltb_spec in H1.
  rewrite leb_spec, ltb_spec, mul_spec.
  change (Prim2SF 0) with (S754_zero false) in *.
  change 1 with (fixed 1 0) in H1.
  rewrite (Prim2SF_fixed 1 0 ltac:(split; simpl; lia)) in H1.
  change (Prim2SF 60) with (S754_finite false 8444249301319680 (-47)).
  destruct (Prim2SF x) as [s|s| |s m e] eqn:E.
  - destruct s; split; reflexivity.
  - destruct s; discriminate.
  - discriminate.
  - destruct s; [discriminate|]. simpl in Hv.
    unfold SFltb in H1.
    rewrite (SFcompare_finite_fixed m e 1 Hv ltac:(split; simpl; lia) ltac:(lia)) in H1.
    destruct (bounded_inv m e Hv) as (He & Hm & Hn).
    assert (He53 : (e <= -53)%Z).
    { destruct (Z.compare_spec (Zpos m * 2 ^ (e - Z.min e 0)) (1 * 2 ^ (- Z.min e 0))) as [C|C|C];
        try discriminate.
      destruct (Z_le_gt_dec 0 e) as [P|N].
      - rewrite Z.min_r, Z.sub_0_r in C by lia. change (- 0)%Z with 0%Z in C.
        rewrite Z.pow_0_r in C.
        assert (0 < 2 ^ e)%Z by (apply Z.pow_pos_nonneg; lia). nia.
      - rewrite Z.min_l, Z.sub_diag, Z.pow_0_r, Z.mul_1_r, Z.mul_1_l in C by lia.
        destruct (Z_le_gt_dec e (-53)) as [L|G]; [exact L|].
        specialize (Hn ltac:(lia)).
        assert (2 ^ (- e) <= 2 ^ 52)%Z by (apply Z.pow_le_mono_r; lia). lia. }
    unfold SF64mul, SFmul. cbn [xorb].
    rewrite binary_round_aux_rnd by lia.
    rewrite Pos2Z.inj_mul.
    change (Zpos 8444249301319680) with (15 * 2 ^ 49)%Z.
    replace (e + -47)%Z with (e - 47)%Z by lia.
    destruct (rnd_mul60 m e Hm He53) as [Hf Hs].
    destruct (rnd (Zpos m * (15 * 2 ^ 49)) (e - 47)) as [m3 e3]. cbn [fst snd] in Hf, Hs.
    unfold pack. cbn [fst snd].
    destruct m3 as [|p|p]; [split; reflexivity| |lia].
    replace (e3 <=? 971)%Z with true by (symmetry; apply Z.leb_le; lia).
    split; [reflexivity|].
    unfold SFltb. cbn [SFcompare].
    destruct Hs as [Hs|[Hs Hp]].
    + replace (e3 ?= -47)%Z with Lt by (symmetry; apply Z.compare_lt_iff; lia). reflexivity.
    + rewrite Hs.
      assert (Hc : (Zpos p ?= Zpos 8444249301319680)%Z = Lt)
        by (apply Z.compare_lt_iff; change (Zpos 8444249301319680) with (15 * 2 ^ 49)%Z; exact Hp).
      rewrite <- Pos2Z.inj_compare in Hc.
      rewrite Pos.compare_cont_spec, Hc. reflexivity.
Qed.

Lemma is_finite_spec :
  forall x, is_finite x = true <->
    (exists s, Prim2SF x = S754_zero s) \/ (exists s m e, Prim2SF x = S754_finite s m e).
Proof.
  intro x. unfold is_finite, is_nan, is_infinity.
  rewrite !eqb_spec, abs_spec.
  change (Prim2SF infinity) with (S754_infinity false).
  destruct (Prim2SF x) as [s|s| |s m e]; split; intro H.
  - left. exists s. reflexivity.
  - reflexivity.
  - destruct s; discriminate.
  - destruct H as [[s' H]|(s' & m & e & H)]; discriminate.
  - discriminate.
  - destruct H as [[s' H]|(s' & m & e & H)]; discriminate.
  - right. exists s, m, e. reflexivity.
  - unfold SFeqb. rewrite SFcompare_refl by discriminate. reflexivity.
Qed.

(** A number in [[0, b)] is finite. *)
Lemma range_finite :
  forall r b, (0 <=? r) = true -> (r <? b) = true -> is_finite r = true.
Proof.
  intros r b H0 Hb. apply is_finite_spec.
  rewrite leb_spec in H0. rewrite ltb_spec in Hb.
  change (Prim2SF 0) with (S754_zero false) in H0.
  destruct (Prim2SF r) as [s|s| |s m e].
  - left. exists s. reflexivity.
  - exfalso. destruct s; [discriminate|].
    destruct (Prim2SF b) as [s'|s'| |s' m' e']; try discriminate. destruct s'; discriminate.
  - discriminate.
  - right. exists s, m, e. reflexivity.
Qed.

(** Adding a number to a finite number gives a number. *)
Lemma add_not_nan_l :
  forall v w, is_finite v = true -> not_nan w -> not_nan (v + w).
Proof.
  intros v w Hv Hw. apply not_nan_spec in Hw. apply not_nan_spec.
  apply is_finite_spec in Hv. rewrite add_spec.
  destruct Hv as [[s Ev]|(s & m & e & Ev)]; rewrite Ev;
    destruct (Prim2SF w) as [s'|s'| |s' m' e']; try contradiction; try discriminate.
  - destruct s, s'; discriminate.
  - unfold SF64add, SFadd.
    match goal with |- binary_normalize _ _ ?z ?ez _ <> _ =>
      pose proof (binary_normalize_signed z ez) as Hs; destruct z end.
    + rewrite Hs. discriminate.
    + intro E. rewrite E in Hs. exact Hs.
    + intro E. rewrite E in Hs. exact Hs.
Qed.

(** A finite number divided by a positive finite number is a number. *)
Lemma div_not_nan :
  forall x y, is_finite x = true -> positive_finite y -> not_nan (x / y).
Proof.
  intros x y Hx Hy. apply not_nan_spec. rewrite div_spec.
  destruct (positive_finite_spec y Hy) as (my & ey & Ey & _). rewrite Ey.
  apply is_finite_spec in Hx.
  destruct Hx as [[s Ex]|(s & m & e & Ex)]; rewrite Ex; [discriminate|].
  unfold SF64div, SFdiv, SFdiv_core_binary.
  match goal with |- context [Z.div_eucl ?a ?b] =>
    assert (Ha : (0 <= a)%Z);
    [| pose proof (Z.div_pos a b Ha ltac:(lia)) as Hq; unfold Z.div in Hq;
       destruct (Z.div_eucl a b) as [q r] ]
  end.
  - destruct (_ - _ - _)%Z; try lia. apply Z.shiftl_nonneg. lia.
  - cbn [fst] in Hq.
    match goal with |- binary_round_aux _ _ ?sg ?mz ?ez ?lz <> _ =>
      pose proof (binary_round_aux_signed sg mz ez lz Hq) as Hs end.
    intro E. rewrite E in Hs. exact Hs.
Qed.

(** Hour, minute and second of a local time in [[0, 24)], as [sunRiseSet]
    computes them. *)
Lemma time_of_day_fields :
  forall localT : float,
    (0 <=? localT) = true -> (localT <? 24) = true ->
    let hour := Floor localT in
    let minute := Floor ((localT - hour) * 60) in
    let second := Floor (((localT - hour) * 60 - minute) * 60) in
    (0 <= toInt hour < 24)%Z /\ (0 <= toInt minute < 60)%Z /\ (0 <= toInt second < 60)%Z.
Proof.
  intros localT H0 H24 hour minute second.
  assert (F24 : fits 24 0) by (split; [reflexivity | lia]).
  assert (F60 : fits 60 0) by (split; [reflexivity | lia]).
  destruct (floor_frac localT 24 ltac:(lia) F24 H0 H24) as (Hh & Hf0 & Hf1).
  fold hour in Hh, Hf0, Hf1.
  destruct (mul60_bound (localT - hour) Hf0 Hf1) as [Hm0 Hm1].
  destruct (floor_frac ((localT - hour) * 60) 60 ltac:(lia) F60 Hm0 Hm1) as (Hmi & Hr0 & Hr1).
  fold minute in Hmi, Hr0, Hr1.
  destruct (mul60_bound ((localT - hour) * 60 - minute) Hr0 Hr1) as [Hs0 Hs1].
  destruct (floor_frac (((localT - hour) * 60 - minute) * 60) 60 ltac:(lia) F60 Hs0 Hs1)
    as (Hse & _).
  fold second in Hse.
  repeat split; lia.
Qed.

(** ** The calendar of package time *)

Section Calendar.
#[local] Open Scope Z_scope.

Ltac div_mod_lia := Z.div_mod_to_equations; lia.

Lemma wrap64_id : forall z, - 2 ^ 63 <= z < 2 ^ 63 -> wrap64 z = z.
Proof. intros z H. unfold wrap64. rewrite Z.mod_small; lia. Qed.

Lemma u64_id : forall z, 0 <= z < 2 ^ 64 -> u64 z = z.
Proof. intros z H. unfold u64. apply Z.mod_small, H. Qed.

(** Nothing is carried when the low field is in its range. *)
Lemma norm_id : forall hi lo base, 0 <= lo < base -> norm hi lo base = (hi, lo).
Proof.
  intros hi lo base H. unfold norm.
  destruct (Z.ltb_spec lo 0) as [H1|_]; [lia|].
  destruct (Z.leb_spec base lo) as [H2|_]; [lia | reflexivity].
Qed.

Lemma rem_eqb_mod : forall a b, 0 < b -> (Z.rem a b =? 0) = (a mod b =? 0).
Proof.
  intros a b Hb.
  destruct (Z.eqb_spec (Z.rem a b) 0) as [H|H], (Z.eqb_spec (a mod b) 0) as [H'|H'];
    try reflexivity; exfalso.
  - apply H'. apply Z.mod_divide; [lia|]. apply Z.rem_divide; [lia | exact H].
  - apply H. apply Z.rem_divide; [lia|]. apply Z.mod_divide; [lia | exact H'].
Qed.

Lemma isLeap_index : forall Y, isLeap (Y + absoluteZeroYear) = leapIndex Y.
Proof.
  intro Y. unfold isLeap, leapIndex, absoluteZeroYear.
  rewrite !rem_eqb_mod by lia.
  replace ((Y + -292277022399) mod 4 =? 0) with (Y mod 4 =? 3)
    by (destruct (Z.eqb_spec (Y mod 4) 3), (Z.eqb_spec ((Y + -292277022399) mod 4) 0);
        try reflexivity; exfalso; div_mod_lia).
  replace ((Y + -292277022399) mod 100 =? 0) with (Y mod 100 =? 99)
    by (destruct (Z.eqb_spec (Y mod 100) 99), (Z.eqb_spec ((Y + -292277022399) mod 100) 0);
        try reflexivity; exfalso; div_mod_lia).
  replace ((Y + -292277022399) mod 400 =? 0) with (Y mod 400 =? 399)
    by (destruct (Z.eqb_spec (Y mod 400) 399), (Z.eqb_spec ((Y + -292277022399) mod 400) 0);
        try reflexivity; exfalso; div_mod_lia).
  reflexivity.
Qed.

(** The days before year [Y] of the era, by cycles of 400, 100 and 4
    years. *)
Lemma daysSinceEpoch_index :
  forall Y, 0 <= Y <= lastYear ->
    daysSinceEpoch (Y + absoluteZeroYear)
    = 146097 * (Y / 400) + 36524 * (Y mod 400 / 100) + 1461 * (Y mod 100 / 4) + 365 * (Y mod 4).
Proof.
  intros Y HY. unfold daysSinceEpoch, lastYear in *.
  replace (Y + absoluteZeroYear - absoluteZeroYear) with Y by ring.
  rewrite (u64_id Y) by lia.
  cbv zeta.
  replace ((Y - 400 * (Y / 400)) / 100) with (Y mod 400 / 100) by (f_equal; div_mod_lia).
  replace ((Y - 400 * (Y / 400) - 100 * (Y mod 400 / 100)) / 4) with (Y mod 100 / 4)
    by div_mod_lia.
  replace (Y - 400 * (Y / 400) - 100 * (Y mod 400 / 100) - 4 * (Y mod 100 / 4)) with (Y mod 4)
    by div_mod_lia.
  apply u64_id. change (2 ^ 64) with 18446744073709551616. div_mod_lia.
Qed.

(** Reading the year back: day [yd] of year [Y] is found in year [Y], as
    day [yd]. *)
Lemma yearOfDays_index :
  forall Y yd, 0 <= Y <= lastYear -> 0 <= yd < yearLength Y ->
    yearOfDays (daysSinceEpoch (Y + absoluteZeroYear) + yd) = (Y + absoluteZeroYear, yd).
Proof.
  intros Y yd HY Hyd. rewrite (daysSinceEpoch_index Y HY).
  unfold yearLength, leapIndex, lastYear in *.
  assert (Hlen : yd <= 364
                 \/ (yd = 365 /\ Y mod 4 = 3 /\ (Y mod 100 / 4 <> 24 \/ Y mod 400 / 100 = 3))).
  { destruct (Z.eqb_spec (Y mod 4) 3) as [E4|E4]; cbn [andb] in Hyd; [|lia].
    destruct (Z.eqb_spec (Y mod 100) 99) as [E100|E100]; cbn [negb orb] in Hyd.
    - destruct (Z.eqb_spec (Y mod 400) 399) as [E400|E400]; [|lia].
      destruct (Z_le_gt_dec yd 364); [left; lia | right].
      split; [lia|]. split; [exact E4|]. right. div_mod_lia.
    - destruct (Z_le_gt_dec yd 364); [left; lia | right].
      split; [lia|]. split; [exact E4|]. left. intro Ec. apply E100. div_mod_lia. }
  assert (Hb : 0 <= Y mod 400 / 100 <= 3) by div_mod_lia.
  assert (Hc : 0 <= Y mod 100 / 4 <= 24) by div_mod_lia.
  assert (He : 0 <= Y mod 4 <= 3) by div_mod_lia.
  assert (Ha : 0 <= Y / 400) by div_mod_lia.
  assert (HYabce : Y = 400 * (Y / 400) + 100 * (Y mod 400 / 100) + 4 * (Y mod 100 / 4) + Y mod 4)
    by div_mod_lia.
  set (a := Y / 400) in *. set (b := Y mod 400 / 100) in *.
  set (c := Y mod 100 / 4) in *. set (e := Y mod 4) in *.
  assert (Hyd0 : 0 <= yd) by lia.
  clearbody a b c e. clear Hyd.
  unfold yearOfDays.
  assert (E1 : (146097 * a + 36524 * b + 1461 * c + 365 * e + yd) / 146097 = a) by div_mod_lia.
  rewrite E1.
  replace (146097 * a + 36524 * b + 1461 * c + 365 * e + yd - 146097 * a)
    with (36524 * b + 1461 * c + 365 * e + yd) by ring.
  set (d1 := 36524 * b + 1461 * c + 365 * e + yd).
  assert (E2 : d1 / 36524 - Z.shiftr (d1 / 36524) 2 = b).
  { rewrite Z.shiftr_div_pow2 by lia. change (2 ^ 2) with 4. unfold d1. div_mod_lia. }
  cbv zeta. rewrite E2.
  replace (d1 - 36524 * b) with (1461 * c + 365 * e + yd) by (unfold d1; ring).
  assert (E3 : (1461 * c + 365 * e + yd) / 1461 = c) by div_mod_lia.
  rewrite E3.
  replace (1461 * c + 365 * e + yd - 1461 * c) with (365 * e + yd) by ring.
  assert (E4 : (365 * e + yd) / 365 - Z.shiftr ((365 * e + yd) / 365) 2 = e).
  { rewrite Z.shiftr_div_pow2 by lia. change (2 ^ 2) with 4. div_mod_lia. }
  rewrite E4.
  replace (400 * a + 100 * b + 4 * c + e) with Y by lia.
  rewrite (wrap64_id Y) by lia.
  rewrite wrap64_id by (unfold absoluteZeroYear; lia).
  f_equal. ring.
Qed.

Lemma In_range : forall lo n z, Z.of_nat lo <= z < Z.of_nat (lo + n) -> In z (range lo n).
Proof.
  intros lo n z H. unfold range.
  replace z with (Z.of_nat (Z.to_nat z)) by lia.
  apply in_map, in_seq. lia.
Qed.

(** Checked on every day of a common and of a leap year. *)
Lemma monthDay_inverts_all :
  forallb (fun leap =>
    forallb (fun month =>
      forallb (fun day => monthDay_inverts leap month day) (range 1 31))
      (range 1 12))
    [true; false] = true.
Proof. vm_compute. reflexivity. Qed.

Lemma daysIn_le_31 : forall leap month, 1 <= month <= 12 -> daysIn leap month <= 31.
Proof.
  intros leap month H.
  assert (Hin : In month (range 1 12)) by (apply In_range; simpl; lia).
  destruct leap; vm_compute in Hin; intuition (subst; vm_compute; discriminate).
Qed.

Lemma monthDay_dayIndex :
  forall leap month day,
    1 <= month <= 12 -> 1 <= day <= daysIn leap month ->
    monthDay leap (dayIndex leap month day) = (month, day)
    /\ 0 <= dayIndex leap month day < (if leap then 366 else 365).
Proof.
  intros leap month day Hm Hd.
  pose proof (daysIn_le_31 leap month Hm) as H31.
  pose proof monthDay_inverts_all as Hall.
  rewrite forallb_forall in Hall.
  assert (Hl : In leap [true; false]) by (destruct leap; simpl; auto).
  specialize (Hall leap Hl). rewrite forallb_forall in Hall.
  specialize (Hall month (In_range 1 12 month ltac:(simpl; lia))).
  rewrite forallb_forall in Hall.
  specialize (Hall day (In_range 1 31 day ltac:(simpl; lia))).
  unfold monthDay_inverts in Hall.
  destruct (Z.leb_spec day (daysIn leap month)) as [_|H]; [|lia].
  cbn [negb orb] in Hall.
  destruct (monthDay leap (dayIndex leap month day)) as [m d].
  apply andb_true_iff in Hall. destruct Hall as [Hall H4].
  apply andb_true_iff in Hall. destruct Hall as [Hall H3].
  apply andb_true_iff in Hall. destruct Hall as [H1 H2].
  apply Z.eqb_eq in H1, H2. apply Z.leb_le in H3. apply Z.ltb_lt in H4.
  subst. split; [reflexivity | lia].
Qed.

(** [time.Date] leaves a date of the calendar and a time of day as they
    are. *)
Lemma Date_in_range :
  forall year month day hour min sec loc,
    valid_date year month day = true ->
    0 <= hour < 24 -> 0 <= min < 60 -> 0 <= sec < 60 ->
    Date year month day hour min sec 0 loc
    = {| tYear := year; tMonth := month; tDay := day;
         tHour := hour; tMinute := min; tSecond := sec; tNanosecond := 0;
         tLocation := loc |}.
Proof.
  intros year month day hour min sec loc Hv Hh Hm Hs.
  unfold valid_date in Hv.
  repeat (apply andb_true_iff in Hv; destruct Hv as [Hv ?]).
  repeat match goal with
         | H : (_ <=? _) = true |- _ => apply Z.leb_le in H
         end.
  set (Y := year - absoluteZeroYear).
  assert (HY : 0 <= Y <= lastYear) by (unfold Y; lia).
  assert (Ey : year = Y + absoluteZeroYear) by (unfold Y; ring).
  destruct (monthDay_dayIndex (isLeap year) month day ltac:(lia) ltac:(lia)) as [Hmd Hyd].
  pose proof (daysIn_le_31 (isLeap year) month ltac:(lia)) as H31.
  unfold Date.
  rewrite (wrap64_id (month - 1)) by lia.
  rewrite (norm_id year (month - 1) 12) by lia.
  replace (month - 1 + 1) with month by ring.
  rewrite (wrap64_id month) by lia.
  rewrite (norm_id sec 0 1000000000) by lia.
  rewrite (norm_id min sec 60) by lia.
  rewrite (norm_id hour min 60) by lia.
  rewrite (norm_id day hour 24) by lia.
  cbv zeta.
  rewrite (u64_id (day - 1)) by lia.
  set (d := (if isLeap year && (3 <=? month)
             then daysSinceEpoch year + nth (Z.to_nat (month - 1)) daysBefore 0 + 1
             else daysSinceEpoch year + nth (Z.to_nat (month - 1)) daysBefore 0) + (day - 1)).
  assert (Ed : d = daysSinceEpoch year + dayIndex (isLeap year) month day).
  { unfold d, dayIndex. destruct (isLeap year && (3 <=? month)); ring. }
  assert (Hlen : 0 <= dayIndex (isLeap year) month day < yearLength Y).
  { unfold yearLength. rewrite <- isLeap_index, <- Ey. exact Hyd. }
  assert (Hdse : 0 <= daysSinceEpoch year <= 213503982334235).
  { rewrite Ey, (daysSinceEpoch_index Y HY). unfold lastYear in HY. div_mod_lia. }
  assert (Hd : 0 <= d <= 213503982334600).
  { rewrite Ed. destruct (isLeap year); lia. }
  clearbody d.
  rewrite (u64_id (hour * 3600 + min * 60 + sec)) by lia.
  rewrite (u64_id (d * 86400 + _)) by (change (2 ^ 64) with 18446744073709551616; lia).
  unfold timeOf.
  replace ((d * 86400 + (hour * 3600 + min * 60 + sec)) / 86400) with d by div_mod_lia.
  rewrite Ed, Ey at 1. rewrite (yearOfDays_index Y _ HY Hlen).
  rewrite <- Ey, Hmd.
  f_equal; div_mod_lia.
Qed.

End Calendar.

(** The date a clock reading shows is a date of the calendar. *)
Lemma today_valid :
  forall today : Now, valid_date (Year today) (Month today) (Day today) = true.
Proof.
  intro today. pose proof (clock_valid today) as H.
  apply andb_true_iff in H. exact (proj1 H).
Qed.

(** ** NaN and the infinities *)

Lemma is_nan_spec : forall x, is_nan x = true <-> Prim2SF x = S754_nan.
Proof.
  intro x. unfold is_nan. rewrite eqb_spec. unfold SFeqb. split.
  - intro H. destruct (Prim2SF x) as [s|s| |s m e] eqn:E; try reflexivity;
      rewrite SFcompare_refl in H by discriminate; discriminate.
  - intro E. rewrite E. reflexivity.
Qed.

Lemma SFcompare_nan_l : forall y, SFcompare S754_nan y = None.
Proof. intros [s|s| |s m e]; reflexivity. Qed.

Lemma SFcompare_nan_r : forall x, SFcompare x S754_nan = None.
Proof. intros [s|s| |s m e]; reflexivity. Qed.

(** Every comparison with NaN fails. *)
Lemma nan_compares_false :
  forall x y, is_nan x = true ->
    (x <? y) = false /\ (y <? x) = false /\ (x <=? y) = false /\ (y <=? x) = false.
Proof.
  intros x y H. apply is_nan_spec in H.
  rewrite !ltb_spec, !leb_spec, H. unfold SFltb, SFleb.
  rewrite SFcompare_nan_l, SFcompare_nan_r. repeat split.
Qed.

Lemma add_nan_l : forall x y, is_nan x = true -> is_nan (x + y) = true.
Proof.
  intros x y H. apply is_nan_spec in H. apply is_nan_spec.
  rewrite add_spec, H. reflexivity.
Qed.

(** Both loop conditions fail on a NaN. *)
Lemma normalizeRange_passes_nan :
  forall (n : nat) (v max : float),
    is_nan v = true -> normalizeRange (S n) v max = Some v.
Proof.
  intros n v max H. unfold normalizeRange. simpl.
  destruct (nan_compares_false v 0 H) as (H1 & _).
  destruct (nan_compares_false v max H) as (_ & _ & _ & H2).
  rewrite H1. simpl. rewrite H2. reflexivity.
Qed.

(** X7: a NaN passes both loops of [normalizeRange] untouched, whatever [max]
    is: the call returns it after one test of each loop condition, and the
    result is not in [[0, max)]. *)
Theorem normalizeRange_nan :
  forall (n : nat) (v max : float),
    is_nan v = true ->
    normalizeRange (S n) v max = Some v
    /\ (0 <=? v) = false /\ (v <? max) = false.
Proof.
  intros n v max H.
  destruct (nan_compares_false v 0 H) as (_ & _ & _ & H0).
  destruct (nan_compares_false v max H) as (Hm & _).
  split; [exact (normalizeRange_passes_nan n v max H)|].
  split; [exact H0 | exact Hm].
Qed.

Lemma normalizeRange_nan_witness :
  is_nan nan = true
  /\ normalizeRange 1 nan 360 = Some nan
  /\ (0 <=? nan) = false /\ (nan <? 360) = false.
Proof.
  refine (conj eq_refl _).
  exact (normalizeRange_nan 0 nan 360 eq_refl).
Defined.

Lemma is_infinity_spec :
  forall x, is_infinity x = true <-> exists s, Prim2SF x = S754_infinity s.
Proof.
  intro x. unfold is_infinity. rewrite eqb_spec, abs_spec.
  change (Prim2SF infinity) with (S754_infinity false).
  destruct (Prim2SF x) as [s|s| |s m e]; split; intro H; try discriminate;
    try (destruct H; discriminate).
  - exists s. reflexivity.
  - reflexivity.
Qed.

(** X8: on an infinite [v], with a finite [max], [normalizeRange] never
    returns: adding to or subtracting from an infinity leaves it as it is. *)
Theorem normalizeRange_infinite_diverges :
  forall v max : float,
    is_infinity v = true -> is_finite max = true ->
    normalizeRange_diverges v max.
Proof.
  intros v max Hv Hmax fuel.
  apply is_infinity_spec in Hv. destruct Hv as [s Ev].
  apply is_finite_spec in Hmax.
  unfold normalizeRange. destruct s.
  - rewrite addLoop_stuck; [reflexivity | |].
    + rewrite ltb_spec, Ev. reflexivity.
    + apply Prim2SF_inj. rewrite add_spec, Ev.
      destruct Hmax as [[s E]|(s & m & e & E)]; rewrite E; reflexivity.
  - destruct fuel as [|fuel]; [reflexivity|].
    assert (Hlt : (v <? 0) = false) by (rewrite ltb_spec, Ev; reflexivity).
    simpl addLoop. rewrite Hlt.
    apply subLoop_stuck.
    + rewrite leb_spec, Ev.
      destruct Hmax as [[s E]|(s & m & e & E)]; rewrite E; [reflexivity | destruct s; reflexivity].
    + apply Prim2SF_inj. rewrite sub_spec, Ev.
      destruct Hmax as [[s E]|(s & m & e & E)]; rewrite E; reflexivity.
Qed.

Lemma normalizeRange_infinite_diverges_witness :
  is_infinity neg_infinity = true /\ is_finite 24 = true
  /\ normalizeRange_diverges neg_infinity 24.
Proof.
  refine (conj eq_refl (conj eq_refl _)).
  exact (normalizeRange_infinite_diverges neg_infinity 24 eq_refl eq_refl).
Defined.

(** X10: with [max = 0] the call never returns on a number: neither loop
    changes its variable. *)
Theorem normalizeRange_zero_max_diverges :
  forall v : float, not_nan v -> normalizeRange_diverges v 0.
Proof.
  intros v Hv fuel. unfold normalizeRange.
  pose proof Hv as Hn. apply not_nan_spec in Hn.
  destruct (v <? 0) eqn:Hlt.
  - rewrite addLoop_stuck; [reflexivity | exact Hlt |].
    apply Prim2SF_inj. rewrite add_spec.
    change (Prim2SF 0) with (S754_zero false).
    rewrite ltb_spec in Hlt. change (Prim2SF 0) with (S754_zero false) in Hlt.
    destruct (Prim2SF v) as [s|s| |s m e]; try reflexivity; try discriminate.
  - destruct fuel as [|fuel]; [reflexivity|].
    simpl addLoop. rewrite Hlt.
    apply subLoop_stuck.
    + apply ltb_zero_false; assumption.
    + apply Prim2SF_inj. rewrite sub_spec.
      change (Prim2SF 0) with (S754_zero false).
      destruct (Prim2SF v) as [s|s| |s m e]; try reflexivity; try contradiction.
      destruct s; reflexivity.
Qed.

Lemma normalizeRange_zero_max_diverges_witness :
  not_nan 370 /\ normalizeRange_diverges 370 0.
Proof.
  refine (conj eq_refl _).
  exact (normalizeRange_zero_max_diverges 370 eq_refl).
Defined.

(** ** The calculator as a whole *)

(** What [sunPosition] returns, in terms of the two normalisations. *)
Lemma sunPosition_inv :
  forall (math : MathLib) (fuel : nat) (today : Now) (sunrise : bool)
         (latitude longitude zenith : float) (p : position),
    sunPosition fuel today sunrise latitude longitude zenith = Returned p ->
    exists RA0,
      normalizeRange fuel (Spec.L_formula (Spec.M (Spec.t sunrise (of_Z (YearDay today)) longitude))) 360
        = Some (L p)
      /\ normalizeRange fuel (Spec.RA_formula (L p)) 360 = Some RA0
      /\ p = {| sunset := negb sunrise;
                loc := FixedZone (fst (Zone today)) (snd (Zone today));
                localOffset := of_Z (snd (Zone today)) / 3600;
                lngHour := Spec.lngHour longitude;
                t := Spec.t sunrise (of_Z (YearDay today)) longitude;
                M := Spec.M (Spec.t sunrise (of_Z (YearDay today)) longitude);
                L := L p;
                RA := Spec.RA_hours (L p) RA0;
                sinDec := Spec.sinDec (L p);
                cosDec := Spec.cos (Spec.asin (Spec.sinDec (L p)));
                cosH := Spec.cosH zenith latitude (Spec.sinDec (L p)) |}.
Proof.
  intros math fuel today sunrise latitude longitude zenith p Hp.
  unfold sunPosition in Hp. destruct (Zone today) as [name offset].
  match type of Hp with context [normalizeRange fuel ?x 360] =>
    destruct (normalizeRange fuel x 360) as [L1|] eqn:EL; [|discriminate] end.
  simpl in Hp.
  destruct (normalizeRange fuel (degreeAtan (0.91764 * degreeTan L1)) 360)
    as [RA1|] eqn:ERA; [|discriminate].
  simpl in Hp. inversion Hp; subst p; clear Hp. cbn [L fst snd].
  exists RA1. split; [destruct sunrise; exact EL|]. split; [exact ERA|].
  destruct sunrise; reflexivity.
Qed.

Lemma sunPosition_not_panicked :
  forall (math : MathLib) (fuel : nat) (today : Now) (sunrise : bool)
         (latitude longitude zenith : float) (msg : string),
    sunPosition fuel today sunrise latitude longitude zenith <> Panicked msg.
Proof.
  intros math fuel today sunrise latitude longitude zenith msg.
  unfold sunPosition. destruct (Zone today) as [name offset].
  match goal with |- context [normalizeRange fuel ?x 360] =>
    destruct (normalizeRange fuel x 360) as [L1|]; [|discriminate] end.
  simpl.
  destruct (normalizeRange fuel (degreeAtan (0.91764 * degreeTan L1)) 360);
    discriminate.
Qed.

Lemma localTimestamp_not_panicked :
  forall (math : MathLib) (fuel : nat) (today : Now) (p : position) (T : float) (msg : string),
    localTimestamp fuel today p T <> Panicked msg.
Proof.
  intros math fuel today p T msg. unfold localTimestamp.
  destruct (normalizeRange fuel (T - lngHour p) 24) as [UT|]; [|discriminate]. simpl.
  destruct (normalizeRange fuel (UT + localOffset p) 24); discriminate.
Qed.

(** X2: the only panic is that of the hour-angle test: a call that panics has
    computed a [cosH] above 1 or below -1, and the message is "no answer". *)
Theorem panics_only_out_of_range :
  forall (math : MathLib) (fuel : nat) (today : Now) (sunrise : bool)
         (latitude longitude zenith : float) (msg : string),
    sunRiseSet fuel today sunrise latitude longitude zenith = Panicked msg ->
    msg = "no answer"%string
    /\ exists p, sunPosition fuel today sunrise latitude longitude zenith = Returned p
                 /\ ((cosH p >? 1) = true \/ (cosH p <? -1) = true).
Proof.
  intros math fuel today sunrise latitude longitude zenith msg Hrun.
  unfold sunRiseSet in Hrun.
  destruct (sunPosition fuel today sunrise latitude longitude zenith) as [p|m|] eqn:Hp;
    [| exfalso; exact (sunPosition_not_panicked _ _ _ _ _ _ _ _ Hp) | discriminate].
  simpl in Hrun. unfold localMeanTime in Hrun.
  destruct (cosH p >? 1) eqn:E1; simpl in Hrun.
  - inversion Hrun. split; [reflexivity|]. exists p. split; [reflexivity | left; exact E1].
  - destruct (cosH p <? -1) eqn:E2.
    + inversion Hrun. split; [reflexivity|]. exists p. split; [reflexivity | right; exact E2].
    + exfalso. exact (localTimestamp_not_panicked _ _ _ _ _ _ Hrun).
Qed.

(** X3: a NaN [cosH] passes the hour-angle test: the call does not panic. *)
Theorem nan_cosine_not_panicked :
  forall (math : MathLib) (fuel : nat) (today : Now) (sunrise : bool)
         (latitude longitude zenith : float) (p : position),
    sunPosition fuel today sunrise latitude longitude zenith = Returned p ->
    is_nan (cosH p) = true ->
    forall msg, sunRiseSet fuel today sunrise latitude longitude zenith <> Panicked msg.
Proof.
  intros math fuel today sunrise latitude longitude zenith p Hp Hnan msg Hrun.
  unfold sunRiseSet in Hrun. rewrite Hp in Hrun. simpl in Hrun.
  unfold localMeanTime in Hrun.
  destruct (nan_compares_false (cosH p) 1 Hnan) as (_ & H1 & _).
  destruct (nan_compares_false (cosH p) (-1) Hnan) as (H2 & _).
  rewrite H1, H2 in Hrun. simpl in Hrun.
  exact (localTimestamp_not_panicked _ _ _ _ _ _ Hrun).
Qed.

Lemma normalizeRange_exit :
  forall fuel v max r,
    not_nan v -> positive_finite max ->
    normalizeRange fuel v max = Some r ->
    (0 <=? r) = true /\ (r <? max) = true.
Proof.
  intros fuel v max r Hv Hmax H. unfold normalizeRange in H.
  destruct (addLoop fuel v max) as [v'|] eqn:Ea; [|discriminate].
  pose proof (addLoop_exit fuel v max v' Hv (proj2 Hmax) Ea) as Hv'.
  exact (subLoop_exit fuel v' max r Hv' Hmax H).
Qed.

(** X5: in a call that reaches step 7a, the true longitude [L] and the right
    ascension, as normalised before the quadrant adjustment, lie in
    [[0, 360)], provided the value handed to [normalizeRange] was not NaN. *)
Theorem longitude_and_ascension_in_range :
  forall (math : MathLib) (fuel : nat) (today : Now) (sunrise : bool)
         (latitude longitude zenith : float) (p : position),
    sunPosition fuel today sunrise latitude longitude zenith = Returned p ->
    (not_nan (Spec.L_formula (M p)) -> (0 <=? L p) = true /\ (L p <? 360) = true)
    /\ exists RA0,
         normalizeRange fuel (Spec.RA_formula (L p)) 360 = Some RA0
         /\ RA p = Spec.RA_hours (L p) RA0
         /\ (not_nan (Spec.RA_formula (L p)) -> (0 <=? RA0) = true /\ (RA0 <? 360) = true).
Proof.
  intros math fuel today sunrise latitude longitude zenith p Hp.
  destruct (sunPosition_inv _ _ _ _ _ _ _ _ Hp) as (RA0 & HL & HRA & Ep).
  assert (H360 : positive_finite 360) by (split; reflexivity).
  assert (EM : M p = Spec.M (Spec.t sunrise (of_Z (YearDay today)) longitude))
    by (rewrite Ep; reflexivity).
  assert (ER : RA p = Spec.RA_hours (L p) RA0) by (rewrite Ep at 1; reflexivity).
  split.
  - intro Hn. rewrite EM in Hn. exact (normalizeRange_exit _ _ _ _ Hn H360 HL).
  - exists RA0. split; [exact HRA|]. split; [exact ER|].
    intro Hn. exact (normalizeRange_exit _ _ _ _ Hn H360 HRA).
Qed.

(** X6: latitude and zenith enter through [cosH] alone: two calls for the
    same day of the year, direction and longitude compute the same [t], [M],
    [L], [RA], [sinDec] and [cosDec]. *)
Theorem position_depends_on_day_direction_longitude :
  forall (math : MathLib) (fuel : nat) (today today' : Now) (sunrise : bool)
         (latitude latitude' longitude zenith zenith' : float) (p p' : position),
    YearDay today = YearDay today' ->
    sunPosition fuel today sunrise latitude longitude zenith = Returned p ->
    sunPosition fuel today' sunrise latitude' longitude zenith' = Returned p' ->
    t p = t p' /\ M p = M p' /\ L p = L p' /\ RA p = RA p'
    /\ sinDec p = sinDec p' /\ cosDec p = cosDec p'.
Proof.
  intros math fuel today today' sunrise latitude latitude' longitude zenith zenith' p p'
         Hday Hp Hp'.
  destruct (sunPosition_inv _ _ _ _ _ _ _ _ Hp) as (RA0 & HL & HRA & Ep).
  destruct (sunPosition_inv _ _ _ _ _ _ _ _ Hp') as (RA0' & HL' & HRA' & Ep').
  rewrite <- Hday in HL', Ep'.
  assert (EL : L p = L p') by congruence.
  rewrite <- EL in HRA', Ep'.
  assert (ER : RA0 = RA0') by congruence.
  rewrite Ep, Ep'. cbn [t M L RA sinDec cosDec].
  rewrite ER. repeat split; reflexivity.
Qed.

Lemma fixed_is_finite : forall c q, fits c q -> is_finite (fixed c q) = true.
Proof.
  intros c q H. apply is_finite_spec. rewrite (Prim2SF_fixed c q H).
  destruct c as [|m|m].
  - left. exists false. reflexivity.
  - right. cbn [fixed_sf]. unfold canonical. eexists _, _, _. reflexivity.
  - right. cbn [fixed_sf]. unfold canonical. eexists _, _, _. reflexivity.
Qed.

(** X1: the timestamp of a call that returns carries the year, month and day
    of the reference instant unchanged, an hour in 0..23, a minute and a
    second in 0..59, no nanoseconds, and the zone of the reference instant:
    [time.Date] never has to carry a field over.  [T - lngHour] is assumed to
    be a number (the NaN is treated further down).  The zone offset, a count
    of seconds, is assumed to be below [2^53] in size. *)
Theorem timestamp_fields_in_range :
  forall (math : MathLib) (fuel : nat) (today : Now) (sunrise : bool)
         (latitude longitude zenith : float) (p : position) (H T : float) (tm : Time),
    (Z.abs (snd (Zone today)) < 2 ^ 53)%Z ->
    sunPosition fuel today sunrise latitude longitude zenith = Returned p ->
    localMeanTime p = Returned (H, T) ->
    not_nan (T - lngHour p) ->
    sunRiseSet fuel today sunrise latitude longitude zenith = Returned tm ->
    tYear tm = Year today /\ tMonth tm = Month today /\ tDay tm = Day today
    /\ (0 <= tHour tm <= 23)%Z /\ (0 <= tMinute tm <= 59)%Z /\ (0 <= tSecond tm <= 59)%Z
    /\ tNanosecond tm = 0%Z
    /\ tLocation tm = FixedZone (fst (Zone today)) (snd (Zone today)).
Proof.
  intros math fuel today sunrise latitude longitude zenith p H T tm Hoff Hp HT Hnum Hrun.
  unfold sunRiseSet in Hrun. rewrite Hp in Hrun. simpl in Hrun.
  rewrite HT in Hrun. simpl in Hrun. unfold localTimestamp in Hrun.
  destruct (normalizeRange fuel (T - lngHour p) 24) as [UT|] eqn:EUT; [|discriminate].
  simpl in Hrun.
  destruct (normalizeRange fuel (UT + localOffset p) 24) as [localT|] eqn:ElT; [|discriminate].
  simpl in Hrun.
  assert (H24 : positive_finite 24) by (split; reflexivity).
  destruct (normalizeRange_exit _ _ _ _ Hnum H24 EUT) as [HU0 HU1].
  destruct (sunPosition_inv _ _ _ _ _ _ _ _ Hp) as (RA0 & _ & _ & Ep).
  assert (Eo : localOffset p = of_Z (snd (Zone today)) / 3600) by (rewrite Ep; reflexivity).
  assert (El : loc p = FixedZone (fst (Zone today)) (snd (Zone today)))
    by (rewrite Ep; reflexivity).
  assert (Hfit : fits (snd (Zone today)) 0) by (split; [exact Hoff | lia]).
  assert (Ho : not_nan (localOffset p)).
  { rewrite Eo, (of_Z_fixed _ Hfit). apply div_not_nan.
    - apply fixed_is_finite, Hfit.
    - split; reflexivity. }
  assert (Hsum : not_nan (UT + localOffset p))
    by (apply add_not_nan_l; [exact (range_finite UT 24 HU0 HU1) | exact Ho]).
  destruct (normalizeRange_exit _ _ _ _ Hsum H24 ElT) as [HL0 HL1].
  destruct (time_of_day_fields localT HL0 HL1) as (Hh & Hm & Hs).
  cbv zeta in Hh, Hm, Hs.
  rewrite (Date_in_range _ _ _ _ _ _ _ (today_valid today) Hh Hm Hs) in Hrun.
  inversion Hrun; subst tm; clear Hrun. cbn [tYear tMonth tDay tHour tMinute tSecond tNanosecond tLocation].
  repeat split; try lia. exact El.
Qed.

(** ** The result *)

(** C3, amended: a call that returns with a [T - lngHour] that is a number
    has normalised [T - lngHour] and then [UT + localOffset] into
    [[0, 24)], the offset being that of the reference instant in hours, has
    taken hour, minute and second from the local time by the three floor
    formulas, and returns the timestamp that carries the reference instant's
    year, month and day with that hour, minute and second, no nanoseconds,
    in the fixed zone of the reference instant's zone name and offset.  The
    zone offset, a count of seconds, is assumed to be below [2^53] in
    size. *)
Theorem result_construction :
  forall (math : MathLib) (fuel : nat) (today : Now) (sunrise : bool)
         (latitude longitude zenith : float) (p : position) (H T : float) (tm : Time),
    (Z.abs (snd (Zone today)) < 2 ^ 53)%Z ->
    sunPosition fuel today sunrise latitude longitude zenith = Returned p ->
    localMeanTime p = Returned (H, T) ->
    not_nan (T - longitude / 15) ->
    sunRiseSet fuel today sunrise latitude longitude zenith = Returned tm ->
    exists UT localT,
      normalizeRange fuel (T - longitude / 15) 24 = Some UT
      /\ normalizeRange fuel (UT + of_Z (snd (Zone today)) / 3600) 24 = Some localT
      /\ tm = Date (Year today) (Month today) (Day today)
                   (toInt (Spec.hour localT)) (toInt (Spec.minute localT))
                   (toInt (Spec.second localT)) 0
                   (FixedZone (fst (Zone today)) (snd (Zone today)))
      /\ tYear tm = Year today /\ tMonth tm = Month today /\ tDay tm = Day today
      /\ tHour tm = toInt (Spec.hour localT)
      /\ tMinute tm = toInt (Spec.minute localT)
      /\ tSecond tm = toInt (Spec.second localT)
      /\ tNanosecond tm = 0%Z
      /\ tLocation tm = FixedZone (fst (Zone today)) (snd (Zone today)).
Proof.
  intros math fuel today sunrise latitude longitude zenith p H T tm Hoff Hp HT Hnum Hrun.
  destruct (sunPosition_inv _ _ _ _ _ _ _ _ Hp) as (RA0 & _ & _ & Ep).
  assert (El : lngHour p = longitude / 15) by (rewrite Ep; reflexivity).
  assert (Eo : localOffset p = of_Z (snd (Zone today)) / 3600) by (rewrite Ep; reflexivity).
  assert (Ez : loc p = FixedZone (fst (Zone today)) (snd (Zone today)))
    by (rewrite Ep; reflexivity).
  unfold sunRiseSet in Hrun. rewrite Hp in Hrun. simpl in Hrun.
  rewrite HT in Hrun. simpl in Hrun. unfold localTimestamp in Hrun.
  rewrite El, Eo, Ez in Hrun.
  destruct (normalizeRange fuel (T - longitude / 15) 24) as [UT|] eqn:EUT; [|discriminate].
  simpl in Hrun.
  destruct (normalizeRange fuel (UT + of_Z (snd (Zone today)) / 3600) 24)
    as [localT|] eqn:ElT; [|discriminate].
  simpl in Hrun.
  assert (H24 : positive_finite 24) by (split; reflexivity).
  destruct (normalizeRange_exit _ _ _ _ Hnum H24 EUT) as [HU0 HU1].
  assert (Hfit : fits (snd (Zone today)) 0) by (split; [exact Hoff | lia]).
  assert (Ho : not_nan (of_Z (snd (Zone today)) / 3600)).
  { rewrite (of_Z_fixed _ Hfit). apply div_not_nan.
    - apply fixed_is_finite, Hfit.
    - split; reflexivity. }
  assert (Hsum : not_nan (UT + of_Z (snd (Zone today)) / 3600))
    by (apply add_not_nan_l; [exact (range_finite UT 24 HU0 HU1) | exact Ho]).
  destruct (normalizeRange_exit _ _ _ _ Hsum H24 ElT) as [HL0 HL1].
  destruct (time_of_day_fields localT HL0 HL1) as (Hh & Hm & Hs).
  cbv zeta in Hh, Hm, Hs.
  exists UT, localT.
  split; [reflexivity|]. split; [exact ElT|].
  inversion Hrun as [Etm]. clear Hrun.
  split; [reflexivity|].
  unfold Spec.hour, Spec.minute, Spec.second.
  rewrite (Date_in_range _ _ _ _ _ _ _ (today_valid today) Hh Hm Hs).
  cbn [tYear tMonth tDay tHour tMinute tSecond tNanosecond tLocation].
  repeat split.
Qed.

(** ** Normalisation of the intermediate angles *)



(** ** Absorption: a small term added to a large number is rounded away *)

Section Absorption.
#[local] Open Scope Z_scope.

Lemma round_shift_near :
  forall M k r, 0 <= M -> 0 < k -> 2 * Z.abs (M - r * 2 ^ k) < 2 ^ k ->
    round_shift M k = r.
Proof.
  intros M k r HM Hk Hnear.
  destruct (round_shift_bounds M k HM Hk) as (_ & Hup & Hlo).
  assert (Hp : 0 < 2 ^ k) by (apply Z.pow_pos_nonneg; lia).
  set (rs := round_shift M k) in *. clearbody rs.
  set (P := 2 ^ k) in *. clearbody P.
  assert (H1 : (rs - r) * P < P) by lia.
  assert (H2 : - P < (rs - r) * P) by lia.
  nia.
Qed.

Lemma Zdigits2_unique :
  forall M d, 2 ^ (d - 1) <= M < 2 ^ d -> 0 < M -> Zdigits2 M = d.
Proof.
  intros [|p|p] d H HM; try lia. simpl Zdigits2. apply digits2_pos_unique, H.
Qed.

Lemma rnd_absorbs :
  forall m mm e em,
    2 ^ 52 <= m < 2 ^ 53 -> 0 < mm < 2 ^ 53 -> 55 <= e - em -> -1074 <= em ->
    rnd (m * 2 ^ (e - em) - mm) em = (m, e).
Proof.
  intros m mm e em Hm Hmm Hk Hem.
  remember (e - em) as k eqn:Ek.
  assert (Hp55 : 2 ^ 55 <= 2 ^ k) by (apply Z.pow_le_mono_r; lia).
  assert (E55 : 2 ^ 55 = 4 * 2 ^ 53) by reflexivity.
  assert (E53 : 2 ^ 53 = 2 * 2 ^ 52) by reflexivity.
  assert (Hp52 : 0 < 2 ^ 52) by reflexivity.
  set (M := m * 2 ^ k - mm).
  destruct (Z.eq_dec m (2 ^ 52)) as [Em|Nm].
  - (* the mantissa is the least one: the difference has one digit less *)
    assert (Hk1 : 2 ^ k = 2 * 2 ^ (k - 1))
      by (rewrite <- Z.pow_succ_r by lia; f_equal; lia).
    assert (Hk2 : 2 ^ (52 + k) = 2 ^ 52 * 2 ^ k) by (apply Z.pow_add_r; lia).
    assert (Hk3 : 2 ^ (52 + k - 1) = 2 ^ 52 * 2 ^ (k - 1))
      by (replace (52 + k - 1) with (52 + (k - 1)) by lia; apply Z.pow_add_r; lia).
    assert (HM : 2 ^ (52 + k - 1) <= M < 2 ^ (52 + k))
      by (unfold M; rewrite Em, Hk2, Hk3; nia).
    assert (HM0 : 0 < M) by (rewrite Hk3 in HM; nia).
    unfold rnd. fold M. rewrite (Zdigits2_unique M (52 + k) HM HM0).
    rewrite fexp_eq.
    replace (Z.max (52 + k + em - 53) (-1074)) with (e - 1) by lia.
    replace (e - 1 - em) with (k - 1) by lia.
    destruct (Z.leb_spec (k - 1) 0) as [H|_]; [lia|].
    rewrite (round_shift_near M (k - 1) (2 ^ 53)); [| lia | lia |].
    + rewrite Z.eqb_refl. rewrite Em. f_equal. lia.
    + unfold M. rewrite Em, Hk1.
      replace (2 ^ 52 * (2 * 2 ^ (k - 1)) - mm - 2 ^ 53 * 2 ^ (k - 1)) with (- mm)
        by (rewrite E53; ring).
      rewrite Z.abs_opp, Z.abs_eq by lia. lia.
  - assert (Hk2 : 2 ^ (53 + k) = 2 ^ 53 * 2 ^ k) by (apply Z.pow_add_r; lia).
    assert (Hk3 : 2 ^ (53 + k - 1) = 2 ^ 52 * 2 ^ k)
      by (replace (53 + k - 1) with (52 + k) by lia; apply Z.pow_add_r; lia).
    assert (HM : 2 ^ (53 + k - 1) <= M < 2 ^ (53 + k))
      by (unfold M; rewrite Hk2, Hk3; nia).
    assert (HM0 : 0 < M) by (rewrite Hk3 in HM; nia).
    unfold rnd. fold M. rewrite (Zdigits2_unique M (53 + k) HM HM0).
    rewrite fexp_eq.
    replace (Z.max (53 + k + em - 53) (-1074)) with e by lia.
    replace (e - em) with k by lia.
    destruct (Z.leb_spec k 0) as [H|_]; [lia|].
    rewrite (round_shift_near M k m); [| lia | lia |].
    + destruct (Z.eqb_spec m (2 ^ 53)) as [H|_]; [lia | reflexivity].
    + unfold M. replace (m * 2 ^ k - mm - m * 2 ^ k) with (- mm) by ring.
      rewrite Z.abs_opp, Z.abs_eq by lia. lia.
Qed.

(** A valid number [m * 2^e] less a positive [mm * 2^em] that is at least
    [2^55] times finer rounds back to [m * 2^e]. *)
Lemma binary_normalize_absorbs :
  forall s m e mm em,
    bounded prec emax m e = true -> bounded prec emax mm em = true ->
    55 <= e - em ->
    binary_normalize prec emax (cond_Zopp s (Zpos m * 2 ^ (e - em) - Zpos mm)) em false
    = S754_finite s m e.
Proof.
  intros s m e mm em Hb Hbm Hk.
  destruct (bounded_inv m e Hb) as (He & Hm & Hn).
  destruct (bounded_inv mm em Hbm) as (Hem & Hmm & _).
  specialize (Hn ltac:(lia)).
  assert (Hp55 : 2 ^ 55 <= 2 ^ (e - em)) by (apply Z.pow_le_mono_r; lia).
  assert (E55 : 2 ^ 55 = 4 * 2 ^ 53) by reflexivity.
  assert (Hp53 : 0 < 2 ^ 53) by reflexivity.
  pose proof (rnd_absorbs (Zpos m) (Zpos mm) e em ltac:(lia) ltac:(lia) Hk ltac:(lia)) as Hr.
  destruct (Zpos m * 2 ^ (e - em) - Zpos mm) as [|p|p] eqn:Ep; try nia.
  assert (Hd : e - 1 <= fexp prec emax (Zpos (digits2_pos p) + em)).
  { rewrite fexp_eq. destruct (digits2_pos_bounds p) as [_ Hhi].
    assert (Hlo : 2 ^ (51 + (e - em)) <= Zpos p).
    { rewrite <- Ep, Z.pow_add_r by lia.
      change (2 ^ 51) with (2 ^ 52 / 2). assert (2 ^ 52 = 2 * (2 ^ 52 / 2)) by reflexivity. nia. }
    destruct (Z_lt_le_dec (51 + (e - em)) (Zpos (digits2_pos p))) as [H|H]; [lia|].
    assert (2 ^ Zpos (digits2_pos p) <= 2 ^ (51 + (e - em))) by (apply Z.pow_le_mono_r; lia).
    lia. }
  assert (Hround : binary_round prec emax s p em = S754_finite s m e).
  { unfold binary_round. rewrite shl_align_noop by lia.
    rewrite binary_round_aux_rnd by lia. rewrite Hr.
    unfold pack. cbn [fst snd].
    destruct (Z.leb_spec e 971) as [_|H]; [reflexivity | lia]. }
  destruct s; cbn [cond_Zopp Z.opp binary_normalize]; exact Hround.
Qed.

End Absorption.

Lemma huge_parts :
  forall v, is_finite v = true -> (9223372036854775808 <=? abs v) = true ->
    exists s m e, Prim2SF v = S754_finite s m e
                  /\ bounded prec emax m e = true /\ (11 <= e)%Z.
Proof.
  intros v Hfin Hbig.
  pose proof (Prim2SF_valid v) as Hv.
  apply is_finite_spec in Hfin.
  rewrite leb_spec, abs_spec in Hbig.
  assert (E63 : Prim2SF 9223372036854775808 = S754_finite false 4503599627370496 11)
    by reflexivity.
  rewrite E63 in Hbig.
  destruct Hfin as [[s E]|(s & m & e & E)]; rewrite E in Hbig, Hv.
  - discriminate.
  - exists s, m, e. split; [exact E|]. split; [exact Hv|].
    unfold SFabs, SFleb, SFcompare in Hbig.
    destruct (Z.compare_spec 11 e) as [H|H|H]; [lia | lia | discriminate].
Qed.

Lemma small_parts :
  forall max, positive_finite max -> (max <? 512) = true ->
    exists mm em, Prim2SF max = S754_finite false mm em
                  /\ bounded prec emax mm em = true /\ (em <= -44)%Z.
Proof.
  intros max Hmax Hlt.
  destruct (positive_finite_spec max Hmax) as (mm & em & E & Hb).
  exists mm, em. split; [exact E|]. split; [exact Hb|].
  rewrite ltb_spec, E in Hlt.
  assert (E512 : Prim2SF 512 = S754_finite false 4503599627370496 (-43)) by reflexivity.
  rewrite E512 in Hlt.
  unfold SFltb, SFcompare in Hlt.
  destruct (bounded_inv mm em Hb) as (_ & _ & Hn).
  destruct (Z.compare_spec em (-43)) as [H|H|H]; [| lia | discriminate].
  exfalso. specialize (Hn ltac:(lia)).
  rewrite Pos.compare_cont_spec in Hlt. cbn [Pos.switch_Eq] in Hlt.
  destruct (Pos.compare mm 4503599627370496) eqn:Ec; try discriminate.
  rewrite Pos2Z.inj_compare in Ec. apply -> Z.compare_lt_iff in Ec.
  change (Zpos 4503599627370496) with (2 ^ 52)%Z in Ec. lia.
Qed.

(** X9: a finite [v] with [|v| >= 2^63] is never brought into range when [max]
    is a positive number below 512, as 360 and 24 are: [v + max] and
    [v - max] round back to [v], so the loop that applies never ends. *)
Theorem normalizeRange_absorbs_max :
  forall v max : float,
    is_finite v = true -> (9223372036854775808 <=? abs v) = true ->
    positive_finite max -> (max <? 512) = true ->
    (v + max = v \/ v - max = v) /\ normalizeRange_diverges v max.
Proof.
  intros v max Hfin Hbig Hmax Hlt.
  destruct (huge_parts v Hfin Hbig) as (s & m & e & Ev & Hb & He).
  destruct (small_parts max Hmax Hlt) as (mm & em & Em & Hbm & Hem).
  assert (Hmin : Z.min e em = em) by lia.
  destruct s.
  - assert (Hadd : v + max = v).
    { apply Prim2SF_inj. rewrite add_spec, Ev, Em.
      unfold SF64add, SFadd. change IntDef.Z.min with Z.min. rewrite Hmin.
      rewrite (shl_align_value m e em) by lia.
      rewrite (shl_align_value mm em em) by lia.
      rewrite Z.sub_diag, Z.pow_0_r, Z.mul_1_r. cbn [cond_Zopp].
      replace (- (Zpos m * 2 ^ (e - em)) + Zpos mm)%Z
        with (cond_Zopp true (Zpos m * 2 ^ (e - em) - Zpos mm))
        by (cbn [cond_Zopp]; ring).
      apply binary_normalize_absorbs; [exact Hb | exact Hbm | lia]. }
    split; [left; exact Hadd|].
    intro fuel. unfold normalizeRange.
    rewrite addLoop_stuck; [reflexivity | | exact Hadd].
    rewrite ltb_spec, Ev. reflexivity.
  - assert (Hsub : v - max = v).
    { apply Prim2SF_inj. rewrite sub_spec, Ev, Em.
      unfold SF64sub, SFsub. change IntDef.Z.min with Z.min. rewrite Hmin.
      rewrite (shl_align_value m e em) by lia.
      rewrite (shl_align_value mm em em) by lia.
      rewrite Z.sub_diag, Z.pow_0_r, Z.mul_1_r. cbn [cond_Zopp].
      change (Zpos m * 2 ^ (e - em) - Zpos mm)%Z
        with (cond_Zopp false (Zpos m * 2 ^ (e - em) - Zpos mm)).
      apply binary_normalize_absorbs; [exact Hb | exact Hbm | lia]. }
    split; [right; exact Hsub|].
    intro fuel. unfold normalizeRange.
    destruct fuel as [|fuel]; [reflexivity|].
    assert (Hpos : (v <? 0) = false) by (rewrite ltb_spec, Ev; reflexivity).
    cbn [addLoop]. rewrite Hpos.
    apply subLoop_stuck; [|exact Hsub].
    rewrite leb_spec, Ev, Em. unfold SFleb, SFcompare.
    destruct (Z.compare_spec em e) as [H|H|H]; [lia | reflexivity | lia].
Qed.

Lemma normalizeRange_absorbs_max_witness :
  is_finite (-1e300) = true /\ (9223372036854775808 <=? abs (-1e300)) = true
  /\ positive_finite 24 /\ (24 <? 512) = true
  /\ (-1e300 + 24 = -1e300 \/ -1e300 - 24 = -1e300)
  /\ normalizeRange_diverges (-1e300) 24.
Proof.
  assert (H24 : positive_finite 24) by (split; reflexivity).
  refine (conj eq_refl (conj eq_refl (conj H24 (conj eq_refl _)))).
  exact (normalizeRange_absorbs_max (-1e300) 24 eq_refl eq_refl H24 eq_refl).
Defined.

Lemma nan_unique : forall x, is_nan x = true -> x = nan.
Proof.
  intros x H. apply is_nan_spec in H. apply Prim2SF_inj. rewrite H. reflexivity.
Qed.

Lemma sub_nan_r : forall x y, is_nan y = true -> is_nan (x - y) = true.
Proof.
  intros x y H. apply is_nan_spec in H. apply is_nan_spec.
  rewrite sub_spec, H. destruct (Prim2SF x) as [s|s| |s m e]; reflexivity.
Qed.

Lemma sub_nan_l : forall x y, is_nan x = true -> is_nan (x - y) = true.
Proof.
  intros x y H. apply is_nan_spec in H. apply is_nan_spec.
  rewrite sub_spec, H. reflexivity.
Qed.

Lemma div_nan_l : forall x y, is_nan x = true -> is_nan (x / y) = true.
Proof.
  intros x y H. apply is_nan_spec in H. apply is_nan_spec.
  rewrite div_spec, H. reflexivity.
Qed.

(** X4: a NaN is not rejected.  When the longitude or the local mean time [T]
    is NaN, both normalisations of steps 9 and 10 hand the NaN on, and the
    call returns [time.Date] of the reference date with [int(NaN)] as hour,
    as minute and as second. *)
Theorem nan_time_is_returned :
  forall (math : MathLib) (fuel : nat) (today : Now) (sunrise : bool)
         (latitude longitude zenith : float) (p : position) (H T : float),
    sunPosition fuel today sunrise latitude longitude zenith = Returned p ->
    localMeanTime p = Returned (H, T) ->
    is_nan longitude = true \/ is_nan T = true ->
    sunRiseSet fuel today sunrise latitude longitude zenith
    = Returned (Date (Year today) (Month today) (Day today)
                     (toInt nan) (toInt nan) (toInt nan) 0
                     (FixedZone (fst (Zone today)) (snd (Zone today)))).
Proof.
  intros math fuel today sunrise latitude longitude zenith p H T Hp HT Hnan.
  destruct (sunPosition_inv _ _ _ _ _ _ _ _ Hp) as (RA0 & HL & _ & Ep).
  assert (El : lngHour p = longitude / 15) by (rewrite Ep; reflexivity).
  assert (Ez : loc p = FixedZone (fst (Zone today)) (snd (Zone today)))
    by (rewrite Ep; reflexivity).
  assert (HUT : T - lngHour p = nan).
  { apply nan_unique. destruct Hnan as [Hl|Ht].
    - apply sub_nan_r. rewrite El. apply div_nan_l, Hl.
    - apply sub_nan_l, Ht. }
  destruct fuel as [|n]; [discriminate HL|].
  unfold sunRiseSet. rewrite Hp. simpl. rewrite HT. simpl.
  unfold localTimestamp. rewrite HUT.
  rewrite (normalizeRange_passes_nan n nan 24 eq_refl). simpl.
  assert (Hsum : nan + localOffset p = nan) by (apply nan_unique, add_nan_l; reflexivity).
  rewrite Hsum, (normalizeRange_passes_nan n nan 24 eq_refl). simpl.
  rewrite Ez. reflexivity.
Qed.

(** ** Termination of normalizeRange *)

Section RoundingError.
#[local] Open Scope Z_scope.

(** Rounding moves a number by at most [2^-53] of its size. *)
Lemma rnd_near :
  forall M E, 0 < M -> -1074 <= E ->
    E <= snd (rnd M E)
    /\ 0 < fst (rnd M E)
    /\ Z.abs (fst (rnd M E) * 2 ^ (snd (rnd M E) - E) - M) * 2 ^ 53 <= M.
Proof.
  intros M E HM HE. unfold rnd.
  set (t := fexp prec emax (Zdigits2 M + E)).
  pose proof (fexp_eq (Zdigits2 M + E)) as Ht. fold t in Ht.
  destruct (Zdigits2_bounds M HM) as [Hlo Hhi].
  destruct (Z.leb_spec (t - E) 0) as [Hk|Hk]; cbn [fst snd].
  - rewrite Z.sub_diag, Z.pow_0_r, Z.mul_1_r, Z.sub_diag. simpl. lia.
  - assert (Et : t = Zdigits2 M + E - 53) by lia.
    set (k := t - E) in *.
    assert (Ek : Zdigits2 M - 1 = k + 52) by lia.
    rewrite Ek, Z.pow_add_r in Hlo by lia.
    destruct (round_shift_bounds M k ltac:(lia) Hk) as ((Hqlo & Hqhi) & Hup & Hdn).
    assert (Hp : 0 < 2 ^ k) by (apply Z.pow_pos_nonneg; lia).
    assert (E52 : 2 ^ 52 = 4503599627370496) by reflexivity.
    assert (E53 : 2 ^ 53 = 9007199254740992) by reflexivity.
    assert (Hq : 2 ^ 52 <= M / 2 ^ k) by (apply Z.div_le_lower_bound; [exact Hp | exact Hlo]).
    set (rs := round_shift M k) in *. clearbody rs.
    remember (2 ^ k) as P eqn:EP.
    assert (Hnear : Z.abs (rs * P - M) * 2 ^ 53 <= M).
    { rewrite E53. rewrite E52 in Hlo. clear - Hup Hdn Hlo Hp. lia. }
    destruct (Z.eqb_spec rs (2 ^ 53)) as [E2|E2]; cbn [fst snd].
    + split; [lia|]. split; [lia|].
      replace (t + 1 - E) with (k + 1) by lia.
      rewrite Z.pow_add_r by lia. rewrite <- EP. change (2 ^ 1) with 2.
      replace (2 ^ 52 * (P * 2)) with (rs * P) by (rewrite E2, E53, E52; ring).
      exact Hnear.
    + split; [lia|]. split; [lia|]. fold k. rewrite <- EP. exact Hnear.
Qed.

End RoundingError.

Section NoOverflow.
#[local] Open Scope Z_scope.

Lemma pow2_lt_inv : forall a b, 0 <= b -> 2 ^ a < 2 ^ b -> a < b.
Proof.
  intros a b Hb H. destruct (Z_lt_le_dec a b) as [L|G]; [exact L|].
  assert (2 ^ b <= 2 ^ a) by (apply Z.pow_le_mono_r; lia). lia.
Qed.

(** No overflow when the number to round is not above the largest finite
    one. *)
Lemma rnd_bounded :
  forall M E, 0 < M -> -1074 <= E <= 971 ->
    M * 2 ^ (E + 1074) <= maxValue ->
    snd (rnd M E) <= 971.
Proof.
  intros M E HM HE Hmax. unfold rnd.
  set (t := fexp prec emax (Zdigits2 M + E)).
  pose proof (fexp_eq (Zdigits2 M + E)) as Ht. fold t in Ht.
  destruct (Zdigits2_bounds M HM) as [Hlo Hhi].
  destruct (Z.leb_spec (t - E) 0) as [Hk|Hk]; cbn [fst snd]; [lia|].
  assert (Et : t = Zdigits2 M + E - 53) by lia.
  assert (Hd : 0 < Zdigits2 M) by (destruct M; simpl; lia).
  assert (Hpe : 0 < 2 ^ (E + 1074)) by (apply Z.pow_pos_nonneg; lia).
  assert (Ht971 : t <= 971).
  { assert (Hlt : 2 ^ (Zdigits2 M - 1 + (E + 1074)) < 2 ^ 2098).
    { rewrite Z.pow_add_r by lia.
      apply Z.le_lt_trans with (M * 2 ^ (E + 1074)); [nia|].
      apply Z.le_lt_trans with (1 := Hmax). reflexivity. }
    apply pow2_lt_inv in Hlt; lia. }
  destruct (Z.eqb_spec (round_shift M (t - E)) (2 ^ 53)) as [E2|E2]; cbn [fst snd]; [|exact Ht971].
  destruct (Z.eq_dec t 971) as [E971|N971]; [exfalso | lia].
  destruct (round_shift_bounds M (t - E) ltac:(lia) Hk) as (_ & Hup & _).
  rewrite E2 in Hup.
  assert (Ek : 2 ^ (t - E) * 2 ^ (E + 1074) = 2 ^ 2045)
    by (rewrite <- Z.pow_add_r by lia; f_equal; lia).
  unfold maxValue in Hmax.
  assert (E53 : 2 ^ 53 = 9007199254740992) by reflexivity.
  rewrite E53 in *.
  assert (Hp2045 : 0 < 2 ^ 2045) by (apply Z.pow_pos_nonneg; lia).
  remember (2 ^ (t - E)) as P eqn:EP. remember (2 ^ (E + 1074)) as Q eqn:EQ.
  remember (2 ^ 2045) as R eqn:ER.
  clear - Hup Hmax Ek Hpe Hp2045. nia.
Qed.

Lemma abs_cond_Zopp : forall s x, Z.abs (cond_Zopp s x) = Z.abs x.
Proof. intros [|] x; [apply Z.abs_opp | reflexivity]. Qed.

Lemma shl_align_same_value :
  forall m e e', -1074 <= e -> -1074 <= e' ->
    Zpos (fst (shl_align m e e')) * 2 ^ (snd (shl_align m e e') + 1074) = Zpos m * 2 ^ (e + 1074)
    /\ snd (shl_align m e e') = Z.min e e'.
Proof.
  intros m e e' He He'. destruct (Z_le_gt_dec e e') as [H|H].
  - rewrite shl_align_noop by exact H. cbn [fst snd]. split; [reflexivity | lia].
  - rewrite (shl_align_value m e e') by lia. rewrite (shl_align_exponent m e e') by lia.
    split; [|lia].
    rewrite <- Z.mul_assoc, <- Z.pow_add_r by lia. f_equal. f_equal. lia.
Qed.

(** Rounding [z * 2^e]: no overflow below the largest finite number, and an
    error of at most [2^-53] of the size. *)
Lemma binary_normalize_near :
  forall z e, -1074 <= e <= 971 ->
    Z.abs z * 2 ^ (e + 1074) <= maxValue ->
    SFfinite (binary_normalize prec emax z e false)
    /\ Z.abs (SFvalue (binary_normalize prec emax z e false) - z * 2 ^ (e + 1074)) * 2 ^ 53
       <= Z.abs z * 2 ^ (e + 1074).
Proof.
  intros z e He Hmax.
  assert (Hround : forall s p,
            Zpos p * 2 ^ (e + 1074) <= maxValue ->
            SFfinite (binary_round prec emax s p e)
            /\ Z.abs (SFvalue (binary_round prec emax s p e)
                      - cond_Zopp s (Zpos p) * 2 ^ (e + 1074)) * 2 ^ 53
               <= Zpos p * 2 ^ (e + 1074)).
  { intros s p Hp. unfold binary_round.
    pose proof (fexp_ge_emin (Zpos (digits2_pos p) + e)) as Hf.
    destruct (shl_align_same_value p e (fexp prec emax (Zpos (digits2_pos p) + e))
                ltac:(lia) Hf) as [Hval Hexp].
    destruct (shl_align p e (fexp prec emax (Zpos (digits2_pos p) + e))) as [mz ez].
    cbn [fst snd] in Hval, Hexp.
    assert (Hez : -1074 <= ez <= 971) by lia.
    rewrite binary_round_aux_rnd by lia.
    destruct (rnd_near (Zpos mz) ez ltac:(lia) ltac:(lia)) as (Hge & Hpos & Hnear).
    pose proof (rnd_bounded (Zpos mz) ez ltac:(lia) Hez ltac:(rewrite Hval; exact Hp)) as Hb.
    destruct (rnd (Zpos mz) ez) as [m' e']. cbn [fst snd] in *.
    unfold pack. cbn [fst snd].
    destruct m' as [|q|q]; try lia.
    destruct (Z.leb_spec e' 971) as [_|H]; [|lia].
    split; [exact I|]. cbn [SFvalue].
    assert (Hsplit : 2 ^ (e' + 1074) = 2 ^ (e' - ez) * 2 ^ (ez + 1074))
      by (rewrite <- Z.pow_add_r by lia; f_equal; lia).
    rewrite <- Hval. rewrite Hsplit.
    assert (Hq : 0 < 2 ^ (ez + 1074)) by (apply Z.pow_pos_nonneg; lia).
    replace (cond_Zopp s (Zpos q * (2 ^ (e' - ez) * 2 ^ (ez + 1074)))
             - cond_Zopp s (Zpos p) * 2 ^ (e + 1074))
      with (cond_Zopp s ((Zpos q * 2 ^ (e' - ez) - Zpos mz) * 2 ^ (ez + 1074))).
    2:{ replace (cond_Zopp s (Zpos p) * 2 ^ (e + 1074))
          with (cond_Zopp s (Zpos p * 2 ^ (e + 1074))) by (destruct s; cbn [cond_Zopp]; ring).
        rewrite <- Hval. destruct s; cbn [cond_Zopp]; ring. }
    rewrite abs_cond_Zopp, Z.abs_mul, (Z.abs_eq (2 ^ (ez + 1074))) by lia.
    remember (2 ^ (ez + 1074)) as Q eqn:EQ.
    remember (Z.abs (Zpos q * 2 ^ (e' - ez) - Zpos mz)) as A eqn:EA.
    assert (E53 : 2 ^ 53 = 9007199254740992) by reflexivity. rewrite E53 in *.
    clear - Hnear Hq. nia. }
  destruct z as [|p|p]; cbn [binary_normalize].
  - split; [exact I|]. simpl. lia.
  - apply (Hround false p). exact Hmax.
  - change (Z.neg p) with (cond_Zopp true (Zpos p)) at 2.
    change (Z.abs (Z.neg p)) with (Zpos p). apply (Hround true p). exact Hmax.
Qed.

End NoOverflow.

Section ValueOrder.
#[local] Open Scope Z_scope.

Lemma SFvalue_finite_scale :
  forall s m e ez, -1074 <= ez <= e ->
    SFvalue (S754_finite s m e) = cond_Zopp s (Zpos m * 2 ^ (e - ez)) * 2 ^ (ez + 1074).
Proof.
  intros s m e ez H. cbn [SFvalue].
  replace (e + 1074) with ((e - ez) + (ez + 1074)) by lia.
  rewrite Z.pow_add_r by lia. destruct s; cbn [cond_Zopp]; ring.
Qed.

(** Finite numbers compare as their values do. *)
Lemma SFcompare_value :
  forall x y, valid_binary x = true -> valid_binary y = true ->
    SFfinite x -> SFfinite y ->
    SFcompare x y = Some (SFvalue x ?= SFvalue y).
Proof.
  intros x y Hx Hy Fx Fy.
  destruct x as [sx|sx| |sx mx ex], y as [sy|sy| |sy my ey];
    try contradiction; cbn [SFcompare SFvalue].
  - reflexivity.
  - assert (0 < Zpos my * 2 ^ (ey + 1074)) by (apply Z.mul_pos_pos; [lia | apply Z.pow_pos_nonneg; lia || (apply bounded_inv in Hy; lia)]).
    destruct sy; cbn [cond_Zopp]; f_equal; symmetry;
      [apply Z.compare_gt_iff | apply Z.compare_lt_iff]; lia.
  - assert (0 < Zpos mx * 2 ^ (ex + 1074)) by (apply Z.mul_pos_pos; [lia | apply Z.pow_pos_nonneg; lia || (apply bounded_inv in Hx; lia)]).
    destruct sx; cbn [cond_Zopp]; f_equal; symmetry;
      [apply Z.compare_lt_iff | apply Z.compare_gt_iff]; lia.
  - simpl in Hx, Hy.
    pose proof (compare_aligned mx ex my ey Hx Hy) as Hc.
    destruct (bounded_inv mx ex Hx) as (Hex & _). destruct (bounded_inv my ey Hy) as (Hey & _).
    set (ez := Z.min ex ey) in *.
    assert (Hq : 0 < 2 ^ (ez + 1074)) by (apply Z.pow_pos_nonneg; unfold ez; lia).
    assert (Hvx : Zpos mx * 2 ^ (ex + 1074) = Zpos mx * 2 ^ (ex - ez) * 2 ^ (ez + 1074))
      by (rewrite <- Z.mul_assoc, <- Z.pow_add_r by (unfold ez; lia); do 2 f_equal; lia).
    assert (Hvy : Zpos my * 2 ^ (ey + 1074) = Zpos my * 2 ^ (ey - ez) * 2 ^ (ez + 1074))
      by (rewrite <- Z.mul_assoc, <- Z.pow_add_r by (unfold ez; lia); do 2 f_equal; lia).
    assert (Hpx : 0 < Zpos mx * 2 ^ (ex + 1074))
      by (apply Z.mul_pos_pos; [lia | apply Z.pow_pos_nonneg; lia]).
    assert (Hpy : 0 < Zpos my * 2 ^ (ey + 1074))
      by (apply Z.mul_pos_pos; [lia | apply Z.pow_pos_nonneg; lia]).
    destruct sx, sy; cbn [cond_Zopp]; f_equal.
    + replace (match ex ?= ey with Eq => CompOpp (PosDef.Pos.compare_cont Eq mx my) | Lt => Gt | Gt => Lt end)
        with (CompOpp (match ex ?= ey with Eq => PosDef.Pos.compare_cont Eq mx my | Lt => Lt | Gt => Gt end))
        by (destruct (ex ?= ey); reflexivity).
      rewrite Hc, Hvx, Hvy, Z.compare_opp, mul_compare_mono_r by exact Hq.
      symmetry. apply Z.compare_antisym.
    + symmetry. apply Z.compare_lt_iff. lia.
    + symmetry. apply Z.compare_gt_iff. lia.
    + rewrite Hc, Hvx, Hvy. symmetry. apply mul_compare_mono_r. exact Hq.
Qed.

End ValueOrder.

Section NearSums.
#[local] Open Scope Z_scope.

Lemma SFfinite_exponent :
  forall s m e, valid_binary (S754_finite s m e) = true -> -1074 <= e <= 971.
Proof. intros s m e H. simpl in H. apply bounded_inv in H. lia. Qed.

(** A sum of finite numbers that does not overflow is finite and within
    [2^-53] of the exact sum. *)
Lemma SFadd_near :
  forall x y, valid_binary x = true -> valid_binary y = true ->
    SFfinite x -> SFfinite y ->
    Z.abs (SFvalue x + SFvalue y) <= maxValue ->
    SFfinite (SFadd prec emax x y)
    /\ Z.abs (SFvalue (SFadd prec emax x y) - (SFvalue x + SFvalue y)) * 2 ^ 53
       <= Z.abs (SFvalue x + SFvalue y).
Proof.
  intros x y Hx Hy Fx Fy Hmax.
  destruct x as [sx|sx| |sx mx ex], y as [sy|sy| |sy my ey]; try contradiction.
  - destruct sx, sy; (split; [exact I | simpl; lia]).
  - cbn [SFadd]. split; [exact I|].
    replace (SFvalue (S754_finite sy my ey) - (SFvalue (S754_zero sx) + SFvalue (S754_finite sy my ey)))
      with 0 by (cbn [SFvalue]; ring).
    simpl Z.abs at 1. lia.
  - cbn [SFadd]. split; [exact I|].
    replace (SFvalue (S754_finite sx mx ex) - (SFvalue (S754_finite sx mx ex) + SFvalue (S754_zero sy)))
      with 0 by (cbn [SFvalue]; ring).
    simpl Z.abs at 1. lia.
  - pose proof (SFfinite_exponent _ _ _ Hx) as Hex.
    pose proof (SFfinite_exponent _ _ _ Hy) as Hey.
    unfold SFadd. change IntDef.Z.min with Z.min.
    set (ez := Z.min ex ey).
    rewrite (shl_align_value mx ex ez) by (unfold ez; lia).
    rewrite (shl_align_value my ey ez) by (unfold ez; lia).
    rewrite (SFvalue_finite_scale sx mx ex ez) in * by (unfold ez; lia).
    rewrite (SFvalue_finite_scale sy my ey ez) in * by (unfold ez; lia).
    rewrite <- Z.mul_add_distr_r in *.
    assert (Hq : 0 < 2 ^ (ez + 1074)) by (apply Z.pow_pos_nonneg; unfold ez; lia).
    rewrite Z.abs_mul, (Z.abs_eq (2 ^ (ez + 1074))) in * by lia.
    apply binary_normalize_near; [unfold ez; lia | exact Hmax].
Qed.

Lemma SFsub_near :
  forall x y, valid_binary x = true -> valid_binary y = true ->
    SFfinite x -> SFfinite y ->
    Z.abs (SFvalue x - SFvalue y) <= maxValue ->
    SFfinite (SFsub prec emax x y)
    /\ Z.abs (SFvalue (SFsub prec emax x y) - (SFvalue x - SFvalue y)) * 2 ^ 53
       <= Z.abs (SFvalue x - SFvalue y).
Proof.
  intros x y Hx Hy Fx Fy Hmax.
  destruct x as [sx|sx| |sx mx ex], y as [sy|sy| |sy my ey]; try contradiction.
  - destruct sx, sy; (split; [exact I | simpl; lia]).
  - cbn [SFsub SFopp]. split; [exact I|].
    replace (SFvalue (S754_finite (negb sy) my ey)
             - (SFvalue (S754_zero sx) - SFvalue (S754_finite sy my ey)))
      with 0 by (cbn [SFvalue]; destruct sy; cbn [negb cond_Zopp]; ring).
    simpl Z.abs at 1. lia.
  - cbn [SFsub]. split; [exact I|].
    replace (SFvalue (S754_finite sx mx ex) - (SFvalue (S754_finite sx mx ex) - SFvalue (S754_zero sy)))
      with 0 by (cbn [SFvalue]; ring).
    simpl Z.abs at 1. lia.
  - pose proof (SFfinite_exponent _ _ _ Hx) as Hex.
    pose proof (SFfinite_exponent _ _ _ Hy) as Hey.
    unfold SFsub. change IntDef.Z.min with Z.min.
    set (ez := Z.min ex ey).
    rewrite (shl_align_value mx ex ez) by (unfold ez; lia).
    rewrite (shl_align_value my ey ez) by (unfold ez; lia).
    rewrite (SFvalue_finite_scale sx mx ex ez) in * by (unfold ez; lia).
    rewrite (SFvalue_finite_scale sy my ey ez) in * by (unfold ez; lia).
    rewrite <- Z.mul_sub_distr_r in *.
    assert (Hq : 0 < 2 ^ (ez + 1074)) by (apply Z.pow_pos_nonneg; unfold ez; lia).
    rewrite Z.abs_mul, (Z.abs_eq (2 ^ (ez + 1074))) in * by lia.
    apply binary_normalize_near; [unfold ez; lia | exact Hmax].
Qed.

End NearSums.

Lemma SFfinite_spec : forall x, is_finite x = true <-> SFfinite (Prim2SF x).
Proof.
  intro x. rewrite is_finite_spec. split.
  - intros [[s E]|(s & m & e & E)]; rewrite E; exact I.
  - destruct (Prim2SF x) as [s|s| |s m e]; intro H; try contradiction.
    + left. exists s. reflexivity.
    + right. exists s, m, e. reflexivity.
Qed.

Section FloatNearSums.
#[local] Open Scope Z_scope.

Lemma add_near :
  forall x y : float, is_finite x = true -> is_finite y = true ->
    Z.abs (value x + value y) <= maxValue ->
    is_finite (x + y)%float = true
    /\ Z.abs (value (x + y)%float - (value x + value y)) * 2 ^ 53 <= Z.abs (value x + value y).
Proof.
  intros x y Hx Hy Hmax. rewrite SFfinite_spec in *. unfold value in *.
  rewrite add_spec. apply SFadd_near; try assumption; apply Prim2SF_valid.
Qed.

Lemma sub_near :
  forall x y : float, is_finite x = true -> is_finite y = true ->
    Z.abs (value x - value y) <= maxValue ->
    is_finite (x - y)%float = true
    /\ Z.abs (value (x - y)%float - (value x - value y)) * 2 ^ 53 <= Z.abs (value x - value y).
Proof.
  intros x y Hx Hy Hmax. rewrite SFfinite_spec in *. unfold value in *.
  rewrite sub_spec. apply SFsub_near; try assumption; apply Prim2SF_valid.
Qed.

Lemma ltb_value :
  forall x y : float, is_finite x = true -> is_finite y = true ->
    (x <? y)%float = (value x <? value y).
Proof.
  intros x y Hx Hy. rewrite SFfinite_spec in *. unfold value.
  rewrite ltb_spec. unfold SFltb.
  rewrite (SFcompare_value _ _ (Prim2SF_valid x) (Prim2SF_valid y) Hx Hy).
  unfold Z.ltb. destruct (_ ?= _); reflexivity.
Qed.

Lemma leb_value :
  forall x y : float, is_finite x = true -> is_finite y = true ->
    (x <=? y)%float = (value x <=? value y).
Proof.
  intros x y Hx Hy. rewrite SFfinite_spec in *. unfold value.
  rewrite leb_spec. unfold SFleb.
  rewrite (SFcompare_value _ _ (Prim2SF_valid x) (Prim2SF_valid y) Hx Hy).
  unfold Z.leb. destruct (_ ?= _); reflexivity.
Qed.

Lemma value_bounded : forall x : float, is_finite x = true -> Z.abs (value x) <= maxValue.
Proof.
  intros x Hx. pose proof (Prim2SF_valid x) as Hv. unfold value.
  destruct (Prim2SF x) as [s|s| |s m e]; cbn [SFvalue];
    try (change (Z.abs 0) with 0; unfold maxValue;
         apply Z.mul_nonneg_nonneg; [discriminate | apply Z.pow_nonneg; lia]).
  simpl in Hv. destruct (bounded_inv m e Hv) as (He & Hm & _).
  rewrite abs_cond_Zopp, Z.abs_eq
    by (apply Z.mul_nonneg_nonneg; [lia | apply Z.pow_nonneg; lia]).
  unfold maxValue.
  assert (2 ^ (e + 1074) <= 2 ^ 2045) by (apply Z.pow_le_mono_r; lia).
  assert (0 < 2 ^ (e + 1074)) by (apply Z.pow_pos_nonneg; lia).
  nia.
Qed.

End FloatNearSums.

Section Termination.
#[local] Open Scope Z_scope.

Variable max : float.
Hypothesis Hmax : positive_finite max.

Let m : Z := value max.

Lemma max_finite : is_finite max = true.
Proof. exact (proj2 Hmax). Qed.

Lemma max_value_pos : 0 < m.
Proof.
  destruct Hmax as [Hpos Hfin]. unfold m.
  rewrite (ltb_value 0 max eq_refl Hfin) in Hpos.
  change (value 0) with 0 in Hpos. apply Z.ltb_lt in Hpos. exact Hpos.
Qed.

Lemma ltb_zero_value :
  forall v : float, is_finite v = true -> (v <? 0)%float = (value v <? 0).
Proof. intros v Hv. exact (ltb_value v 0 Hv eq_refl). Qed.

Lemma geb_max_value :
  forall v : float, is_finite v = true -> (v >=? max)%float = (m <=? value v).
Proof. intros v Hv. exact (leb_value max v max_finite Hv). Qed.

(** One pass of the first loop: [v + max] is at least [v + max / 2]. *)
Lemma add_step :
  forall v : float, is_finite v = true -> value v < 0 -> - value v <= 2 ^ 52 * m ->
    is_finite (v + max)%float = true
    /\ 2 * value v + m <= 2 * value (v + max)%float
    /\ (0 <= value (v + max)%float -> value (v + max)%float * 2 ^ 53 <= (2 ^ 53 + 1) * (m - 1)).
Proof.
  intros v Hv Hneg Hsmall.
  pose proof max_value_pos as Hm. pose proof (value_bounded v Hv) as Bv.
  pose proof (value_bounded max max_finite) as Bm. fold m in Bm.
  assert (HS : Z.abs (value v + value max) <= maxValue) by (fold m; lia).
  destruct (add_near v max Hv max_finite HS) as [Hfin Hnear]. fold m in Hnear.
  split; [exact Hfin|].
  assert (E53 : 2 ^ 53 = 9007199254740992) by reflexivity.
  assert (E52 : 2 ^ 52 = 4503599627370496) by reflexivity.
  rewrite E53 in *. rewrite E52 in *.
  set (r := value (v + max)%float) in *. clearbody r.
  set (x := value v) in *. clearbody x.
  clear - Hnear Hneg Hsmall Hm. clearbody m.
  repeat split; lia.
Qed.

(** One pass of the second loop: [v - max] is at most [v - max / 2] and not
    below zero. *)
Lemma sub_step :
  forall v : float, is_finite v = true -> m <= value v -> value v <= 2 ^ 52 * m ->
    is_finite (v - max)%float = true
    /\ 0 <= value (v - max)%float
    /\ 2 * value (v - max)%float + m <= 2 * value v.
Proof.
  intros v Hv Hge Hsmall.
  pose proof max_value_pos as Hm. pose proof (value_bounded v Hv) as Bv.
  assert (HS : Z.abs (value v - value max) <= maxValue) by (fold m; lia).
  destruct (sub_near v max Hv max_finite HS) as [Hfin Hnear]. fold m in Hnear.
  split; [exact Hfin|].
  assert (E53 : 2 ^ 53 = 9007199254740992) by reflexivity.
  assert (E52 : 2 ^ 52 = 4503599627370496) by reflexivity.
  rewrite E53 in *. rewrite E52 in *.
  set (r := value (v - max)%float) in *. clearbody r.
  set (x := value v) in *. clearbody x.
  clear - Hnear Hge Hsmall Hm. clearbody m.
  split; lia.
Qed.

(** The first loop ends within [n + 1] tests when [2 |v| <= n max]. *)
Lemma addLoop_terminates :
  forall (n : nat) (v : float),
    is_finite v = true -> - value v <= 2 ^ 52 * m ->
    - 2 * value v <= Z.of_nat n * m ->
    exists r, addLoop (S n) v max = Some r
              /\ is_finite r = true /\ 0 <= value r
              /\ (r = v \/ value r * 2 ^ 53 <= (2 ^ 53 + 1) * (m - 1)).
Proof.
  pose proof max_value_pos as Hm.
  induction n as [|n IH]; intros v Hv Hsmall Hn.
  - exists v. cbn [addLoop]. rewrite (ltb_zero_value v Hv).
    destruct (Z.ltb_spec (value v) 0) as [H|H]; [lia|].
    repeat split; try assumption. left. reflexivity.
  - cbn [addLoop]. rewrite (ltb_zero_value v Hv).
    destruct (Z.ltb_spec (value v) 0) as [Hneg|Hpos].
    + destruct (add_step v Hv Hneg Hsmall) as (Hfin & Hgain & Hlast).
      destruct (IH (v + max)%float Hfin ltac:(lia) ltac:(lia)) as (r & Hr & Fr & H0 & Hb).
      exists r. split; [exact Hr|]. split; [exact Fr|]. split; [exact H0|].
      right. destruct Hb as [E|Hb]; [|exact Hb].
      subst r. apply Hlast. exact H0.
    + exists v. repeat split; try assumption. left. reflexivity.
Qed.

(** The second loop ends within [n + 1] tests when [2 v < (n + 2) max]. *)
Lemma subLoop_terminates :
  forall (n : nat) (v : float),
    is_finite v = true -> 0 <= value v -> value v <= 2 ^ 52 * m ->
    2 * value v < (Z.of_nat n + 2) * m ->
    exists r, subLoop (S n) v max = Some r.
Proof.
  pose proof max_value_pos as Hm.
  induction n as [|n IH]; intros v Hv H0 Hsmall Hn.
  - exists v. cbn [subLoop]. rewrite (geb_max_value v Hv).
    destruct (Z.leb_spec m (value v)) as [H|H]; [lia | reflexivity].
  - cbn [subLoop]. rewrite (geb_max_value v Hv).
    destruct (Z.leb_spec m (value v)) as [Hge|Hlt].
    + destruct (sub_step v Hv Hge Hsmall) as (Hfin & Hpos & Hgain).
      apply (IH (v - max)%float Hfin Hpos); lia.
    + exists v. reflexivity.
Qed.

End Termination.

(** C7, amended: for a finite [v] and a positive finite [max] with
    [|v| <= 2^52 * max], [normalizeRange(v, max)] returns, after at most
    [2 |v| / max + 3] tests of each loop condition, a value in [[0, max)]:
    every pass through a loop moves [v] by at least [max / 2] towards the
    range, rounding included. *)
Theorem normalizeRange_terminates_within_bound :
  forall v max : float,
    is_finite v = true -> positive_finite max ->
    (magnitude v <= 2 ^ 52 * magnitude max)%Z ->
    exists r,
      normalizeRange (Z.to_nat (2 * magnitude v / magnitude max) + 3) v max = Some r
      /\ (0 <=? r) = true /\ (r <? max) = true.
Proof.
  intros v max Hv Hmax Hsmall.
  pose proof (max_value_pos max Hmax) as Hm.
  assert (Em : magnitude max = value max) by (unfold magnitude; apply Z.abs_eq; lia).
  rewrite Em in *. unfold magnitude in *.
  set (m := value max) in *.
  set (q := (2 * Z.abs (value v) / m)%Z).
  assert (Hq : (0 <= q /\ m * q <= 2 * Z.abs (value v) < m * (q + 1))%Z).
  { unfold q. split; [apply Z.div_pos; lia|].
    pose proof (Z.mul_div_le (2 * Z.abs (value v)) m Hm).
    pose proof (Z.mul_succ_div_gt (2 * Z.abs (value v)) m Hm). lia. }
  clearbody q.
  assert (Hnn : not_nan v).
  { apply not_nan_spec. apply SFfinite_spec in Hv. intro E. rewrite E in Hv. exact Hv. }
  assert (Hrange : forall r, normalizeRange (Z.to_nat q + 3) v max = Some r ->
                             (0 <=? r) = true /\ (r <? max) = true).
  { intros r Hr. unfold normalizeRange in Hr.
    destruct (addLoop (Z.to_nat q + 3) v max) as [v'|] eqn:Ea; [|discriminate].
    pose proof (addLoop_exit _ v max v' Hnn (proj2 Hmax) Ea) as Hv'.
    exact (subLoop_exit _ v' max r Hv' Hmax Hr). }
  assert (Hret : exists r, normalizeRange (Z.to_nat q + 3) v max = Some r).
  { unfold normalizeRange.
    destruct (Z_lt_le_dec (value v) 0) as [Hneg|Hpos].
    - destruct (addLoop_terminates max Hmax (Z.to_nat q + 1) v Hv) as (r1 & Hr1 & F1 & P1 & B1).
      + fold m. lia.
      + fold m. rewrite Nat2Z.inj_add, Z2Nat.id by lia. change (Z.of_nat 1) with 1%Z. nia.
      + rewrite (addLoop_more_fuel _ _ _ _ Hr1 (Z.to_nat q + 3)%nat) by lia.
        fold m in B1. destruct B1 as [E|B1]; [subst r1; lia|].
        assert (E53 : (2 ^ 53 = 9007199254740992)%Z) by reflexivity.
        assert (E52 : (2 ^ 52 = 4503599627370496)%Z) by reflexivity.
        rewrite E53 in B1.
        destruct (subLoop_terminates max Hmax 1 r1 F1 P1) as (r & Hr).
        * fold m. rewrite E52. lia.
        * fold m. change (Z.of_nat 1) with 1%Z. lia.
        * exists r. apply (subLoop_more_fuel _ _ _ _ Hr). lia.
    - assert (Ea : addLoop (Z.to_nat q + 3) v max = Some v).
      { replace (Z.to_nat q + 3)%nat with (S (Z.to_nat q + 2)) by lia.
        cbn [addLoop]. rewrite (ltb_zero_value v Hv).
        destruct (Z.ltb_spec (value v) 0); [lia | reflexivity]. }
      rewrite Ea.
      destruct (subLoop_terminates max Hmax (Z.to_nat q) v Hv Hpos) as (r & Hr).
      + fold m. lia.
      + fold m. rewrite Z2Nat.id by lia. nia.
      + exists r. apply (subLoop_more_fuel _ _ _ _ Hr). lia. }
  destruct Hret as [r Hr]. exists r. split; [exact Hr | exact (Hrange r Hr)].
Qed.

Lemma normalizeRange_terminates_within_bound_witness :
  is_finite (-0.1) = true /\ positive_finite 360
  /\ (magnitude (-0.1) <= 2 ^ 52 * magnitude 360)%Z
  /\ exists r,
       normalizeRange (Z.to_nat (2 * magnitude (-0.1) / magnitude 360) + 3) (-0.1) 360 = Some r
       /\ (0 <=? r) = true /\ (r <? 360) = true.
Proof.
  assert (Hv : is_finite (-0.1) = true) by reflexivity.
  assert (Hmax : positive_finite 360) by (split; reflexivity).
  assert (Hsmall : (magnitude (-0.1) <= 2 ^ 52 * magnitude 360)%Z)
    by (apply Z.leb_le; vm_compute; reflexivity).
  refine (conj Hv (conj Hmax (conj Hsmall _))).
  exact (normalizeRange_terminates_within_bound (-0.1) 360 Hv Hmax Hsmall).
Defined.

(** ** Concrete runs of the further properties *)

Section FurtherRuns.
#[local] Existing Instance Approx.math.

Lemma timestamp_fields_in_range_witness :
  exists p H T tm,
    (Z.abs (snd (Zone equinox)) < 2 ^ 53)%Z
    /\ @sunPosition Approx.math 3 equinox true 0 0 90 = Returned p
    /\ localMeanTime p = Returned (H, T)
    /\ not_nan (T - lngHour p)
    /\ @sunRiseSet Approx.math 3 equinox true 0 0 90 = Returned tm
    /\ tYear tm = 2026%Z /\ tMonth tm = 3%Z /\ tDay tm = 21%Z
    /\ (0 <= tHour tm <= 23)%Z /\ (0 <= tMinute tm <= 59)%Z /\ (0 <= tSecond tm <= 59)%Z
    /\ tNanosecond tm = 0%Z
    /\ tLocation tm = FixedZone "UTC" 0.
Proof.
  destruct (@sunPosition Approx.math 3 equinox true 0 0 90) as [p| |] eqn:Hp;
    [| vm_compute in Hp; discriminate | vm_compute in Hp; discriminate].
  destruct (localMeanTime p) as [[H T]| |] eqn:HT;
    [| vm_compute in Hp; inversion Hp; subst p; vm_compute in HT; discriminate
     | vm_compute in Hp; inversion Hp; subst p; vm_compute in HT; discriminate].
  destruct (@sunRiseSet Approx.math 3 equinox true 0 0 90) as [tm| |] eqn:Hrun;
    [| vm_compute in Hrun; discriminate | vm_compute in Hrun; discriminate].
  assert (Hoff : (Z.abs (snd (Zone equinox)) < 2 ^ 53)%Z) by reflexivity.
  assert (Hnum : not_nan (T - lngHour p)).
  { vm_compute in Hp. inversion Hp; subst p. vm_compute in HT. inversion HT; subst H T.
    vm_compute. reflexivity. }
  exists p, H, T, tm.
  refine (conj Hoff (conj eq_refl (conj HT (conj Hnum (conj eq_refl _))))).
  exact (timestamp_fields_in_range Approx.math 3 equinox true 0 0 90 p H T tm
           Hoff Hp HT Hnum Hrun).
Defined.

Lemma panics_only_out_of_range_witness :
  @sunRiseSet Approx.math 3 solstice false (-85) 0 90 = Panicked "no answer"
  /\ "no answer"%string = "no answer"%string
  /\ exists p, @sunPosition Approx.math 3 solstice false (-85) 0 90 = Returned p
               /\ ((cosH p >? 1) = true \/ (cosH p <? -1) = true).
Proof.
  assert (Hrun : @sunRiseSet Approx.math 3 solstice false (-85) 0 90 = Panicked "no answer")
    by (vm_compute; reflexivity).
  refine (conj Hrun _).
  exact (panics_only_out_of_range Approx.math 3 solstice false (-85) 0 90 "no answer" Hrun).
Defined.

Lemma nan_cosine_not_panicked_witness :
  exists p,
    @sunPosition Approx.math 3 equinox true nan 0 90 = Returned p
    /\ is_nan (cosH p) = true
    /\ forall msg, @sunRiseSet Approx.math 3 equinox true nan 0 90 <> Panicked msg.
Proof.
  destruct (@sunPosition Approx.math 3 equinox true nan 0 90) as [p| |] eqn:Hp;
    [| vm_compute in Hp; discriminate | vm_compute in Hp; discriminate].
  assert (Hn : is_nan (cosH p) = true)
    by (vm_compute in Hp; inversion Hp; vm_compute; reflexivity).
  exists p. refine (conj eq_refl (conj Hn _)).
  exact (nan_cosine_not_panicked Approx.math 3 equinox true nan 0 90 p Hp Hn).
Defined.

Lemma longitude_and_ascension_in_range_witness :
  exists p,
    @sunPosition Approx.math 3 equinox false 52 13 83 = Returned p
    /\ (not_nan (Spec.L_formula (M p)) -> (0 <=? L p) = true /\ (L p <? 360) = true)
    /\ exists RA0,
         normalizeRange 3 (Spec.RA_formula (L p)) 360 = Some RA0
         /\ RA p = Spec.RA_hours (L p) RA0
         /\ (not_nan (Spec.RA_formula (L p)) -> (0 <=? RA0) = true /\ (RA0 <? 360) = true).
Proof.
  destruct (@sunPosition Approx.math 3 equinox false 52 13 83) as [p| |] eqn:Hp;
    [| vm_compute in Hp; discriminate | vm_compute in Hp; discriminate].
  exists p. refine (conj eq_refl _).
  exact (longitude_and_ascension_in_range Approx.math 3 equinox false 52 13 83 p Hp).
Defined.

Lemma position_depends_on_day_direction_longitude_witness :
  exists p p',
    YearDay equinox = YearDay equinox
    /\ @sunPosition Approx.math 3 equinox true 0 13 90 = Returned p
    /\ @sunPosition Approx.math 3 equinox true 52 13 83 = Returned p'
    /\ t p = t p' /\ M p = M p' /\ L p = L p' /\ RA p = RA p'
    /\ sinDec p = sinDec p' /\ cosDec p = cosDec p'.
Proof.
  destruct (@sunPosition Approx.math 3 equinox true 0 13 90) as [p| |] eqn:Hp;
    [| vm_compute in Hp; discriminate | vm_compute in Hp; discriminate].
  destruct (@sunPosition Approx.math 3 equinox true 52 13 83) as [p'| |] eqn:Hp';
    [| vm_compute in Hp'; discriminate | vm_compute in Hp'; discriminate].
  exists p, p'. refine (conj eq_refl (conj eq_refl (conj eq_refl _))).
  exact (position_depends_on_day_direction_longitude Approx.math 3 equinox equinox true
           0 52 13 90 83 p p' eq_refl Hp Hp').
Defined.

Lemma nan_time_is_returned_witness :
  exists p H T,
    @sunPosition Approx.math 3 equinox true 0 nan 90 = Returned p
    /\ localMeanTime p = Returned (H, T)
    /\ (is_nan nan = true \/ is_nan T = true)
    /\ @sunRiseSet Approx.math 3 equinox true 0 nan 90
       = Returned (Date 2026 3 21 (toInt nan) (toInt nan) (toInt nan) 0 (FixedZone "UTC" 0)).
Proof.
  destruct (@sunPosition Approx.math 3 equinox true 0 nan 90) as [p| |] eqn:Hp;
    [| vm_compute in Hp; discriminate | vm_compute in Hp; discriminate].
  destruct (localMeanTime p) as [[H T]| |] eqn:HT;
    [| vm_compute in Hp; inversion Hp; subst p; vm_compute in HT; discriminate
     | vm_compute in Hp; inversion Hp; subst p; vm_compute in HT; discriminate].
  assert (Hn : is_nan nan = true \/ is_nan T = true) by (left; reflexivity).
  exists p, H, T. refine (conj eq_refl (conj HT (conj Hn _))).
  exact (nan_time_is_returned Approx.math 3 equinox true 0 nan 90 p H T Hp HT Hn).
Defined.

(** C3, as stated, fails: with a NaN latitude the cosine of the hour angle
    is NaN and passes the test, the local time is NaN, and hour, minute and
    second are [int(NaN)], which on amd64 is the least int64.  The call
    returns, [time.Date] carries those fields over in wrapping arithmetic,
    and the timestamp lies in the year 292277026653: it carries neither the
    year, month and day of the reference instant, 21 March 2026, nor that
    hour, minute and second. *)
Lemma nan_result_leaves_reference_date :
  @SunRise Approx.math 3 equinox nan 0
  = Returned {| tYear := 292277026653; tMonth := 2; tDay := 22;
                tHour := 15; tMinute := 30; tSecond := 8; tNanosecond := 0;
                tLocation := FixedZone "UTC" 0 |}
  /\ Year equinox = 2026%Z /\ Month equinox = 3%Z /\ Day equinox = 21%Z
  /\ toInt (Spec.hour nan) = minInt64.
Proof.
  split; [vm_compute; reflexivity|]. repeat split.
Qed.

Lemma result_construction_witness :
  exists p H T tm,
    (Z.abs (snd (Zone equinox)) < 2 ^ 53)%Z
    /\ @sunPosition Approx.math 3 equinox false 52 13 90 = Returned p
    /\ localMeanTime p = Returned (H, T)
    /\ not_nan (T - 13 / 15)
    /\ @sunRiseSet Approx.math 3 equinox false 52 13 90 = Returned tm
    /\ exists UT localT,
         normalizeRange 3 (T - 13 / 15) 24 = Some UT
         /\ normalizeRange 3 (UT + of_Z 0 / 3600) 24 = Some localT
         /\ tm = Date 2026 3 21
                      (toInt (Spec.hour localT)) (toInt (Spec.minute localT))
                      (toInt (Spec.second localT)) 0 (FixedZone "UTC" 0)
         /\ tYear tm = 2026%Z /\ tMonth tm = 3%Z /\ tDay tm = 21%Z
         /\ tHour tm = toInt (Spec.hour localT)
         /\ tMinute tm = toInt (Spec.minute localT)
         /\ tSecond tm = toInt (Spec.second localT)
         /\ tNanosecond tm = 0%Z
         /\ tLocation tm = FixedZone "UTC" 0.
Proof.
  destruct (@sunPosition Approx.math 3 equinox false 52 13 90) as [p| |] eqn:Hp;
    [| vm_compute in Hp; discriminate | vm_compute in Hp; discriminate].
  destruct (localMeanTime p) as [[H T]| |] eqn:HT;
    [| vm_compute in Hp; inversion Hp; subst p; vm_compute in HT; discriminate
     | vm_compute in Hp; inversion Hp; subst p; vm_compute in HT; discriminate].
  destruct (@sunRiseSet Approx.math 3 equinox false 52 13 90) as [tm| |] eqn:Hrun;
    [| vm_compute in Hrun; discriminate | vm_compute in Hrun; discriminate].
  assert (Hoff : (Z.abs (snd (Zone equinox)) < 2 ^ 53)%Z) by reflexivity.
  assert (Hnum : not_nan (T - 13 / 15)).
  { vm_compute in Hp. inversion Hp; subst p. vm_compute in HT. inversion HT; subst H T.
    vm_compute. reflexivity. }
  exists p, H, T, tm.
  refine (conj Hoff (conj eq_refl (conj HT (conj Hnum (conj eq_refl _))))).
  exact (result_construction Approx.math 3 equinox false 52 13 90 p H T tm
           Hoff Hp HT Hnum Hrun).
Defined.





End FurtherRuns.
